(** * A shallow embedding of the RustScan Go bindings

    The package drives the external [rustscan] binary: [Scanner.Run] spawns
    it, scans its standard output for open-port lines, aborts on too many of
    them, races process exit against the context, classifies standard error,
    extracts the XML payload, parses it and applies the port and host
    filters.  Go strings are byte strings: they are modelled by
    [String.string] (a list of 8-bit [ascii]).  Go [int] is a 64-bit integer,
    modelled by [Z] with its wrap-around written out. *)

From Stdlib Require Import ZArith Ascii String List Bool Lia.
From stdpp Require Import base list gmap strings.
Import ListNotations.

Open Scope string_scope.

(* ------------------------------------------------------------------ *)
(** ** The [strings] package functions used by the code *)

Module GoStrings.

Definition nl : string := String (Ascii.ascii_of_nat 10) EmptyString.
Definition dq : string := String (Ascii.ascii_of_nat 34) EmptyString.
Definition nul : ascii := Ascii.ascii_of_nat 0.

(** [s] with its first [k] bytes removed (the Go slice [s[k:]]). *)
Fixpoint drop_bytes (k : nat) (s : string) : string :=
  match k, s with
  | O, _ => s
  | S k', String _ s' => drop_bytes k' s'
  | S _, EmptyString => EmptyString
  end.

(** [strings.Contains s sub]. *)
Fixpoint Contains (s sub : string) : bool :=
  if String.prefix sub s then true
  else match s with
       | EmptyString => false
       | String _ s' => Contains s' sub
       end.

(** [strings.Count s sub] for a non-empty [sub]: non-overlapping
    occurrences, scanned left to right. *)
Fixpoint count_fuel (fuel : nat) (s sub : string) : nat :=
  match fuel with
  | O => 0
  | S f =>
      if String.prefix sub s then S (count_fuel f (drop_bytes (String.length sub) s) sub)
      else match s with
           | EmptyString => 0
           | String _ s' => count_fuel f s' sub
           end
  end.

Definition Count (s sub : string) : nat := count_fuel (S (String.length s)) s sub.

(** [strings.Split s sep] for a non-empty [sep]: the pieces between the
    occurrences of [sep]; there is always at least one piece. *)
Fixpoint split_fuel (fuel : nat) (s sep : string) : list string :=
  match fuel with
  | O => [s]
  | S f =>
      if String.prefix sep s then "" :: split_fuel f (drop_bytes (String.length sep) s) sep
      else match s with
           | EmptyString => [""]
           | String c s' =>
               match split_fuel f s' sep with
               | [] => [String c ""]
               | p :: ps => String c p :: ps
               end
           end
  end.

Definition Split (s sep : string) : list string := split_fuel (S (String.length s)) s sep.

(** [strings.ReplaceAll s old new] for a non-empty [old]. *)
Fixpoint replace_fuel (fuel : nat) (s old new : string) : string :=
  match fuel with
  | O => s
  | S f =>
      if String.prefix old s then new ++ replace_fuel f (drop_bytes (String.length old) s) old new
      else match s with
           | EmptyString => EmptyString
           | String c s' => String c (replace_fuel f s' old new)
           end
  end.

Definition ReplaceAll (s old new : string) : string :=
  replace_fuel (S (String.length s)) s old new.

(** [strings.Trim s "\n"]: newlines removed from both ends. *)
Fixpoint trim_left_nl (s : string) : string :=
  match s with
  | String c s' => if Ascii.eqb c (Ascii.ascii_of_nat 10) then trim_left_nl s' else s
  | EmptyString => EmptyString
  end.

Fixpoint rev_string (s : string) : string :=
  match s with
  | EmptyString => EmptyString
  | String c s' => rev_string s' ++ String c EmptyString
  end.

Definition TrimNL (s : string) : string :=
  rev_string (trim_left_nl (rev_string (trim_left_nl s))).

End GoStrings.

Import GoStrings.

(* ------------------------------------------------------------------ *)
(** ** [Structure]: the synthesized "no open ports" payload *)

Module Payload.

(** The raw Go literal contains no apostrophe, so it is written here with
    apostrophes standing for its double quotes and mapped back byte by
    byte; line breaks are the literal's own newlines. *)
Fixpoint apos_to_dq (s : string) : string :=
  match s with
  | EmptyString => EmptyString
  | String c s' =>
      String (if Ascii.eqb c "'"%char then Ascii.ascii_of_nat 34 else c) (apos_to_dq s')
  end.

Definition close_info_literal : string := apos_to_dq
"<?xml version='1.0' encoding='UTF-8'?>
<!DOCTYPE nmaprun>
<?xml-stylesheet href='file:///usr/local/bin/../share/nmap/nmap.xsl' type='text/xsl'?>
<!-- Nmap 7.92 scan initiated Tue Dec  7 15:34:04 2021 as: nmap -p 80,443 -oX - rustscan_info -->
<nmaprun scanner='nmap' args='nmap -p 80,443 -oX - rustscan_info' start='1638862444' startstr='Tue Dec  7 15:34:04 2021' version='7.92' xmloutputversion='1.05'>
<scaninfo type='connect' protocol='tcp' numservices='2' services='80,443'/>
<verbose level='0'/>
<debugging level='0'/>
<hosthint><status state='up' reason='unknown-response' reason_ttl='0'/>
<address addr='rustscan_info' addrtype='ipv4'/>
<hostnames>
</hostnames>
</hosthint>
<host starttime='1638862444' endtime='1638862444'><status state='up' reason='conn-refused' reason_ttl='0'/>
<address addr='rustscan_info' addrtype='ipv4'/>
<hostnames>
</hostnames>
<ports><port protocol='tcp' portid='80'><state state='closed' reason='conn-refused' reason_ttl='0'/><service name='http' method='table' conf='3'/></port>
</ports>
<times srtt='53510' rttvar='31142' to='178078'/>
</host>
<runstats><finished time='1638862444' timestr='Tue Dec  7 15:34:04 2021' summary='Nmap done at Tue Dec  7 15:34:04 2021; 1 IP address (1 host up) scanned in 0.25 seconds' elapsed='0.25' exit='success'/><hosts up='1' down='0' total='1'/>
</runstats>
</nmaprun>".

(** [func Structure() []byte]. *)
Definition Structure : string :=
  let close_info := close_info_literal in
  let close_info := ReplaceAll close_info "rustscan_info" "www.baidu.com" in
  close_info.

(** Observers of the payload text: the values of every attribute [name]
    in document order, and the number of elements with a given tag. *)
Fixpoint read_attr_value (s : string) : string :=
  match s with
  | EmptyString => EmptyString
  | String c s' =>
      if Ascii.eqb c (Ascii.ascii_of_nat 34) then EmptyString else String c (read_attr_value s')
  end.

Fixpoint attr_values_fuel (fuel : nat) (s key : string) : list string :=
  match fuel with
  | O => []
  | S f =>
      if String.prefix key s
      then read_attr_value (drop_bytes (String.length key) s)
             :: attr_values_fuel f (drop_bytes (String.length key) s) key
      else match s with
           | EmptyString => []
           | String _ s' => attr_values_fuel f s' key
           end
  end.

Definition attr_values (s name : string) : list string :=
  attr_values_fuel (S (String.length s)) s (" " ++ name ++ "=" ++ dq).

Definition element_count (s tag : string) : nat := Count s ("<" ++ tag ++ " ").

End Payload.

(* ------------------------------------------------------------------ *)
(** ** Errors ([errors.go] and the error values used by [Run]) *)

Inductive error :=
| ErrRustScanNotInstalled
| ErrScanTimeout
| ErrMallocFailed
| ErrParseOutput
| ErrResolveName
| ErrScanCDN
| ErrStart (msg : string)        (** the error of [cmd.Start()] *)
| ErrorString (msg : string).    (** an error built by [fmt.Errorf] *)

(** [fmt.Sprintf format] with no operands, as used by [fmt.Errorf(msg)]:
    [%%] prints a percent sign, every other verb (after its flags, width and
    precision) prints [%!v(MISSING)], a trailing [%] prints [%!(NOVERB)].
    Star widths and explicit argument indexes, which read operands, are not
    distinguished from plain verbs here. *)
Definition is_fmt_modifier (c : ascii) : bool :=
  let n := Ascii.nat_of_ascii c in
  (Nat.leb 48 n && Nat.leb n 57)
  || Ascii.eqb c "#"%char || Ascii.eqb c "+"%char || Ascii.eqb c "-"%char
  || Ascii.eqb c " "%char || Ascii.eqb c "."%char.

Fixpoint sprintf_noargs (in_verb : bool) (s : string) : string :=
  match s with
  | EmptyString => if in_verb then "%!(NOVERB)" else EmptyString
  | String c s' =>
      if in_verb then
        if is_fmt_modifier c then sprintf_noargs true s'
        else if Ascii.eqb c "%"%char then "%" ++ sprintf_noargs false s'
        else "%!" ++ String c EmptyString ++ "(MISSING)" ++ sprintf_noargs false s'
      else if Ascii.eqb c "%"%char then sprintf_noargs true s'
      else String c (sprintf_noargs false s')
  end.

Definition Errorf (format : string) : error := ErrorString (sprintf_noargs false format).

(* ------------------------------------------------------------------ *)
(** ** The report model and the Go heap it lives in *)

Module Model.

Record Service := { Name : string }.
Record Port := { ID : Z; Protocol : string; State : string; PortService : Service }.
Record Address := { Addr : string; AddrType : string }.
Record Hostname := { HostnameName : string }.
Record Host := { Addresses : list Address; Hostnames : list Hostname; Ports : list Port }.
(** [Elapsed] is a [float32] in Go; it is kept as the attribute text. *)
Record Finished := { Elapsed : string; ErrorMsg : string }.
Record Stats := { Finished_ : Finished }.
(** The Go type [Run]: the parsed report. *)
Record Run := { Hosts : list Host; Stats_ : Stats }.

Definition set_Ports (h : Host) (ps : list Port) : Host :=
  {| Addresses := Addresses h; Hostnames := Hostnames h; Ports := ps |}.

(** A [*Run] points to a cell whose [Hosts] field is a slice: [None] for a
    nil slice, [Some a] for a slice over the host array at [a].  Host
    arrays are shared by every slice header that points to them. *)
Definition loc := positive.
Record RunCell := { cell_Hosts : option loc; cell_Stats : Stats }.
Record heap := {
  runs : gmap loc RunCell;
  host_arrays : gmap loc (list Host);
  next_loc : loc
}.

Definition heap_wf (h : heap) : Prop :=
  (forall a, is_Some (host_arrays h !! a) -> (a < next_loc h)%positive) /\
  (forall p, is_Some (runs h !! p) -> (p < next_loc h)%positive).

Definition slice_hosts (h : heap) (s : option loc) : list Host :=
  match s with
  | None => []
  | Some a => default [] (host_arrays h !! a)
  end.

(** The report a pointer designates, read back as a value. *)
Definition read_run (h : heap) (p : loc) : option Run :=
  match runs h !! p with
  | None => None
  | Some c => Some {| Hosts := slice_hosts h (cell_Hosts c); Stats_ := cell_Stats c |}
  end.

Definition alloc_hosts (h : heap) (l : list Host) : heap * loc :=
  ({| runs := runs h; host_arrays := <[next_loc h := l]> (host_arrays h);
      next_loc := Pos.succ (next_loc h) |}, next_loc h).

Definition write_run (h : heap) (p : loc) (c : RunCell) : heap :=
  {| runs := <[p := c]> (runs h); host_arrays := host_arrays h; next_loc := next_loc h |}.

Definition write_hosts (h : heap) (a : loc) (l : list Host) : heap :=
  {| runs := runs h; host_arrays := <[a := l]> (host_arrays h); next_loc := next_loc h |}.

(** Allocation of a freshly parsed report: a slice built by [append] is nil
    when nothing was appended. *)
Definition alloc_slice (h : heap) (l : list Host) : heap * option loc :=
  match l with
  | [] => (h, None)
  | _ => let '(h', a) := alloc_hosts h l in (h', Some a)
  end.

Definition alloc_run (h : heap) (r : Run) : heap * loc :=
  let '(h1, s) := alloc_slice h (Hosts r) in
  let p := next_loc h1 in
  ({| runs := <[p := {| cell_Hosts := s; cell_Stats := Stats_ r |}]> (runs h1);
      host_arrays := host_arrays h1; next_loc := Pos.succ p |}, p).

Definition empty_heap : heap := {| runs := ∅; host_arrays := ∅; next_loc := 1%positive |}.

End Model.

Import Model.

(* ------------------------------------------------------------------ *)
(** ** The result filters *)

Module Filter.

(** [for _, x := range xs { if filter(x) { acc = append(acc, x) } }] *)
Fixpoint append_if {A} (filter : A -> bool) (xs acc : list A) : list A :=
  match xs with
  | [] => acc
  | x :: xs' => append_if filter xs' (if filter x then app acc [x] else acc)
  end.

(** [func chooseHosts(result *Run, filter func(Host) bool) *Run]; [None]
    is the nil-pointer panic. *)
Definition chooseHosts (h : heap) (result : loc) (filter : Host -> bool) : option (heap * loc) :=
  match runs h !! result with
  | None => None
  | Some c =>
      let filteredHosts := append_if filter (slice_hosts h (cell_Hosts c)) [] in
      let '(h1, s) := alloc_slice h filteredHosts in
      Some (write_run h1 result {| cell_Hosts := s; cell_Stats := cell_Stats c |}, result)
  end.

(** The body of [for idx := range result.Hosts], for [n] indexes from
    [idx], over the host array [arr] updated in place. *)
Fixpoint choosePorts_loop (filter : Port -> bool) (idx n : nat) (arr : list Host) : list Host :=
  match n with
  | O => arr
  | S n' =>
      let arr' :=
        match arr !! idx with
        | Some host =>
            let filteredPorts := append_if filter (Ports host) [] in
            <[idx := set_Ports host filteredPorts]> arr
        | None => arr
        end in
      choosePorts_loop filter (S idx) n' arr'
  end.

(** [func choosePorts(result *Run, filter func(Port) bool) *Run]. *)
Definition choosePorts (h : heap) (result : loc) (filter : Port -> bool) : option (heap * loc) :=
  match runs h !! result with
  | None => None
  | Some c =>
      match cell_Hosts c with
      | None => Some (h, result)
      | Some a =>
          let arr := default [] (host_arrays h !! a) in
          Some (write_hosts h a (choosePorts_loop filter 0 (length arr) arr), result)
      end
  end.

End Filter.

(* ------------------------------------------------------------------ *)
(** ** The diagnostic classifier *)

(** [func analyzeWarnings(warnings []string) error]; [None] is nil. *)
Fixpoint analyzeWarnings (warnings : list string) : option error :=
  match warnings with
  | [] => None
  | warning :: rest =>
      if Contains warning "Malloc Failed!" then Some ErrMallocFailed
      else analyzeWarnings rest
  end.

(* ------------------------------------------------------------------ *)
(** ** The process orchestrator: [func (s *Scanner) Run(limit int)] *)

Module Orchestrator.

(** Go [int] arithmetic: 64-bit two's complement. *)
Definition wrap64 (z : Z) : Z := ((z + 2 ^ 63) mod 2 ^ 64 - 2 ^ 63)%Z.

Record Scanner := {
  args : list string;
  binaryPath : string;
  portFilter : option (Port -> bool);
  hostFilter : option (Host -> bool)
}.

(** What the outside world does during one call: whether [cmd.Start()]
    fails, the bytes each successful [Read] of the stdout pipe delivers
    (at most 1024 each) before the read that returns [io.EOF] with no
    data, what the process writes to standard error, and which arm of the
    completion [select] wins. *)
Record Env := {
  start_error : option string;
  stdout_reads : list string;
  stderr_output : string;
  ctx_done_first : bool
}.

(** Observable process events, in program order. *)
Inductive Event :=
| EvStart (path : string) (argv : list string)
| EvRead (data : string) (eof : bool)
| EvKill
| EvWait.

Record Outcome := {
  result : option Model.Run;
  warnings : list string;
  err : option error;
  trace : list Event
}.

Definition mk (r : option Model.Run) (w : list string) (e : option error) (t : list Event) : Outcome :=
  {| result := r; warnings := w; err := e; trace := t |}.

(** [args] of [Run]: the output flags are appended unless resuming. *)
Definition run_args (args : list string) : list string :=
  let resume := existsb (String.eqb "--resume") args in
  if negb resume then app args ["--"; "-oX"; "-"] else args.

Definition buf_size : nat := 1024.

(** [string(tmp)]: the whole zeroed 1024-byte buffer, of which the read
    filled the first bytes. *)
Definition string_of_buf (data : string) : string :=
  data ++ String.concat "" (repeat (String nul EmptyString) (buf_size - String.length data)).

Definition open_marker : string := "Open ".

(** One iteration of the read loop. *)
Definition read_step (data : string) (st : string * Z) : string * Z :=
  let '(out_tmp, n) := st in
  let tmp := string_of_buf data in
  let out_tmp := out_tmp ++ tmp in
  let n := if Contains tmp open_marker then wrap64 (n + 1) else n in
  (out_tmp, n).

(** The loop [for { ... if err != nil { break } }]: the reads that
    deliver data, then the read that returns [io.EOF]. *)
Fixpoint read_loop (reads : list string) (st : string * Z) : string * Z * list Event :=
  match reads with
  | [] => let '(o, n) := read_step "" st in (o, n, [EvRead "" true])
  | data :: rest =>
      let '(o, n, evs) := read_loop rest (read_step data st) in
      (o, n, EvRead data false :: evs)
  end.

(** The payload extraction: the text is split at ["[~]"] and the last
    segment holding an XML declaration (minus its first byte) or the
    "no open ports" notice decides [out]. *)
Fixpoint extract_loop (infos : list string) (out : string) : string :=
  match infos with
  | [] => out
  | info :: rest =>
      let out :=
        if Contains info "<?xml " then drop_bytes 1 info
        else if Contains info "Looks like I didn't find any open ports" then Payload.Structure
        else out in
      extract_loop rest out
  end.

Definition extract_out (out_tmp : string) : string := extract_loop (Split out_tmp "[~]") "".

(** [if stderr.Len() > 0 { warnings = strings.Split(strings.Trim(..., "\n"), "\n") }] *)
Definition stderr_warnings (stderr : string) : list string :=
  if Nat.ltb 0 (String.length stderr) then Split (TrimNL stderr) nl else [].

(** The filters of [Run], applied to the parsed report in the heap. *)
Definition apply_filters (s : Scanner) (r : Model.Run) : option Model.Run :=
  let '(h, p) := alloc_run empty_heap r in
  let hp := match portFilter s with
            | Some f => Filter.choosePorts h p f
            | None => Some (h, p)
            end in
  let hp := match hostFilter s, hp with
            | Some f, Some (h, p) => Filter.chooseHosts h p f
            | _, _ => hp
            end in
  match hp with
  | Some (h, p) => read_run h p
  | None => None
  end.

Section RunDef.

(** [Parse] (the XML decoder of the package) is not part of these
    sources; [Run] is defined for every parser, which returns the report
    or the text of its error. *)
Variable Parse : string -> Model.Run + string.

Definition Run (s : Scanner) (limit : Z) (env : Env) : Outcome :=
  let args := run_args (args s) in
  match start_error env with
  | Some e => mk None [] (Some (ErrStart e)) []
  | None =>
      let '(out_tmp, n, reads) := read_loop (stdout_reads env) ("", 0%Z) in
      let tr := EvStart (binaryPath s) args :: reads in
      if Z.ltb limit n then mk None [] (Some ErrScanCDN) (app tr [EvKill])
      else if ctx_done_first env then mk None [] (Some ErrScanTimeout) (app tr [EvKill])
      else
        let tr := app tr [EvWait] in
        let warnings := stderr_warnings (stderr_output env) in
        match analyzeWarnings warnings with
        | Some e => mk None warnings (Some e) tr
        | None =>
            let out := extract_out out_tmp in
            match Parse out with
            | inr perr => mk None (app warnings [perr]) (Some ErrParseOutput) tr
            | inl result =>
                let msg := ErrorMsg (Finished_ (Stats_ result)) in
                if Nat.ltb 0 (String.length msg) then
                  if Contains msg "Error resolving name"
                  then mk (Some result) warnings (Some ErrResolveName) tr
                  else mk (Some result) warnings (Some (Errorf msg)) tr
                else mk (apply_filters s result) warnings None tr
            end
        end
  end.

End RunDef.

End Orchestrator.

(* ------------------------------------------------------------------ *)
(** ** Scanner construction: [NewScanner], the options, [AddOptions] *)

Module Options.

Import Orchestrator.

(** [fmt.Sprint(n)] for an [int]: its decimal text. *)
Fixpoint dec_digits (fuel : nat) (n : N) (acc : string) : string :=
  match fuel with
  | O => acc
  | S f =>
      let acc := String (Ascii.ascii_of_N (48 + N.modulo n 10)) acc in
      if N.ltb n 10 then acc else dec_digits f (N.div n 10) acc
  end.

Definition Sprint_int (z : Z) : string :=
  match z with
  | Z0 => "0"
  | Zpos p => dec_digits (Pos.size_nat p) (Npos p) ""
  | Zneg p => "-" ++ dec_digits (Pos.size_nat p) (Npos p) ""
  end.

(** [strings.Join(elems, sep)]. *)
Fixpoint Join (elems : list string) (sep : string) : string :=
  match elems with
  | [] => ""
  | [e] => e
  | e :: rest => e ++ sep ++ Join rest sep
  end.

(** Variables captured by option closures that the closures assign: only
    [WithPorts] has one ([portList]).  They live in a store shared by all
    applications of the same closure. *)
Record closures := { captured : gmap loc string; next_cap : loc }.

(** An [Option] closure value.  [WithContext] sets a field the scanner
    model does not carry and is left out. *)
Inductive Option :=
| OptBinaryPath (binaryPath : string)
| OptCustomArguments (args : list string)
| OptFilterPort (portFilter : option (Port -> bool))
| OptFilterHost (hostFilter : option (Host -> bool))
| OptTargets (targets : list string)
| OptPorts (elems : string) (portList : loc)
| OptBatchSize (size : Z)
| OptTimeout (number : Z)
| OptScanOrder (order : string)
| OptUlimit (ulimit : Z).

Definition WithBinaryPath (binaryPath : string) : Option := OptBinaryPath binaryPath.
Definition WithCustomArguments (args : list string) : Option := OptCustomArguments args.
Definition WithFilterPort (portFilter : option (Port -> bool)) : Option := OptFilterPort portFilter.
Definition WithFilterHost (hostFilter : option (Host -> bool)) : Option := OptFilterHost hostFilter.
Definition WithTargets (targets : list string) : Option := OptTargets targets.
Definition WithBatchSize (size : Z) : Option := OptBatchSize size.
Definition WithTimeout (number : Z) : Option := OptTimeout number.
Definition WithScanOrder (order : string) : Option := OptScanOrder order.
Definition WithUlimit (ulimit : Z) : Option := OptUlimit ulimit.

(** [WithPorts(ports...)]: [portList] and [elems] are computed once, when
    the option is built; [portList] is a variable the closure captures. *)
Definition WithPorts (ports : list string) (cl : closures) : Option * closures :=
  let portList := Join ports "," in
  let elems := if Contains portList "," then "-p" else "-r" in
  (OptPorts elems (next_cap cl),
   {| captured := <[next_cap cl := portList]> (captured cl); next_cap := Pos.succ (next_cap cl) |}).

Definition set_args (s : Scanner) (a : list string) : Scanner :=
  {| args := a; binaryPath := binaryPath s; portFilter := portFilter s; hostFilter := hostFilter s |}.

(** The first index holding [x]. *)
Fixpoint index_of (x : string) (l : list string) : option nat :=
  match l with
  | [] => None
  | y :: l' => if String.eqb y x then Some 0%nat else option_map S (index_of x l')
  end.

(** Calling an option on a scanner; [None] is a runtime panic (an index
    out of range in [WithPorts]). *)
Definition apply_option (o : Option) (cl : closures) (s : Scanner) : option (Scanner * closures) :=
  match o with
  | OptBinaryPath p =>
      Some ({| args := args s; binaryPath := p; portFilter := portFilter s;
               hostFilter := hostFilter s |}, cl)
  | OptCustomArguments a => Some (set_args s (app (args s) a), cl)
  | OptFilterPort f =>
      Some ({| args := args s; binaryPath := binaryPath s; portFilter := f;
               hostFilter := hostFilter s |}, cl)
  | OptFilterHost f =>
      Some ({| args := args s; binaryPath := binaryPath s; portFilter := portFilter s;
               hostFilter := f |}, cl)
  | OptTargets targets => Some (set_args s (app (app (args s) ["-a"]) targets), cl)
  | OptPorts elems c =>
      let portList := default "" (captured cl !! c) in
      match index_of "-p" (args s) with
      | Some place =>
          match args s !! S place with
          | None => None
          | Some cur =>
              let portList := cur ++ "," ++ portList in
              Some (set_args s (<[S place := portList]> (args s)),
                    {| captured := <[c := portList]> (captured cl); next_cap := next_cap cl |})
          end
      | None => Some (set_args s (app (args s) [elems; portList]), cl)
      end
  | OptBatchSize size => Some (set_args s (app (args s) ["-b"; Sprint_int size]), cl)
  | OptTimeout number => Some (set_args s (app (args s) ["-t"; Sprint_int number]), cl)
  | OptScanOrder order => Some (set_args s (app (args s) ["--scan-order"; order]), cl)
  | OptUlimit ulimit => Some (set_args s (app (args s) ["-u"; Sprint_int ulimit]), cl)
  end.

(** [for _, option := range options { option(s) }], i.e. [AddOptions]. *)
Fixpoint AddOptions (s : Scanner) (options : list Option) (cl : closures)
    : option (Scanner * closures) :=
  match options with
  | [] => Some (s, cl)
  | o :: rest =>
      match apply_option o cl s with
      | Some (s', cl') => AddOptions s' rest cl'
      | None => None
      end
  end.

Definition empty_scanner : Scanner :=
  {| args := []; binaryPath := ""; portFilter := None; hostFilter := None |}.

(** [NewScanner(options...)]; [lookPath] is what [exec.LookPath("rustscan")]
    finds.  [inr] is the returned error. *)
Definition NewScanner (options : list Option) (cl : closures) (lookPath : option string)
    : option ((Scanner + error) * closures) :=
  match AddOptions empty_scanner options cl with
  | None => None
  | Some (s, cl') =>
      if String.eqb (binaryPath s) "" then
        match lookPath with
        | Some p =>
            Some (inl {| args := args s; binaryPath := p; portFilter := portFilter s;
                         hostFilter := hostFilter s |}, cl')
        | None => Some (inr ErrRustScanNotInstalled, cl')
        end
      else Some (inl s, cl')
  end.

(** [func (s *Scanner) Args() []string]. *)
Definition Args (s : Scanner) : list string := args s.

End Options.

(* ------------------------------------------------------------------ *)
(** ** Observers and concrete inputs used by the statements below *)

Module Fixtures.

(** The report a filter call leaves behind its returned pointer. *)
Definition after (o : option (heap * loc)) : option Model.Run :=
  match o with
  | Some (h, q) => read_run h q
  | None => None
  end.

Definition filtered_ports (g : Port -> bool) (hst : Host) : Host :=
  set_Ports hst (List.filter g (Ports hst)).

Definition port (id : Z) (st : string) : Port :=
  {| ID := id; Protocol := "tcp"; State := st; PortService := {| Name := "http" |} |}.

Definition host1 : Host :=
  {| Addresses := [{| Addr := "10.0.0.1"; AddrType := "ipv4" |}];
     Hostnames := []; Ports := [port 80 "open"; port 443 "closed"] |}.

Definition stats0 : Stats := {| Finished_ := {| Elapsed := "0.25"; ErrorMsg := "" |} |}.

(** A report at pointer 1 whose host slice is the array at 2. *)
Definition heap1 : heap :=
  {| runs := {[ 1%positive := {| cell_Hosts := Some 2%positive; cell_Stats := stats0 |} ]};
     host_arrays := {[ 2%positive := [host1] ]};
     next_loc := 3%positive |}.

Definition is_open (p : Port) : bool := String.eqb (State p) "open".

Definition scanner0 : Orchestrator.Scanner :=
  {| Orchestrator.args := ["-a"; "example.test"; "-r"; "80,443"];
     Orchestrator.binaryPath := "rustscan";
     Orchestrator.portFilter := None; Orchestrator.hostFilter := None |}.

Definition failing_parse (_ : string) : Model.Run + string := inr "EOF".

(** Process behaviours for [Run]. *)
Definition env_of (reads : list string) (stderr : string) : Orchestrator.Env :=
  {| Orchestrator.start_error := None; Orchestrator.stdout_reads := reads;
     Orchestrator.stderr_output := stderr; Orchestrator.ctx_done_first := false |}.

(** An open port reported in the first read, more output afterwards. *)
Definition env_cdn : Orchestrator.Env :=
  env_of ["Open 10.0.0.1:80" ++ nl; "[~] Starting Nmap" ++ nl] ("warning: slow" ++ nl).

(** Two open ports reported by one read. *)
Definition env_two_in_one : Orchestrator.Env :=
  env_of ["Open 10.0.0.1:80" ++ nl ++ "Open 10.0.0.1:443" ++ nl] "".

Definition env_timeout : Orchestrator.Env :=
  {| Orchestrator.start_error := None; Orchestrator.stdout_reads := [];
     Orchestrator.stderr_output := "warning: slow"; Orchestrator.ctx_done_first := true |}.

(** A parser returning a report whose scan-level error message holds a
    percent sign. *)
Definition pct_msg : string := "progress 50%s lost".

Definition report_pct : Model.Run :=
  {| Hosts := []; Stats_ := {| Finished_ := {| Elapsed := "0"; ErrorMsg := pct_msg |} |} |}.

Definition parse_pct (_ : string) : Model.Run + string := inl report_pct.

(** Whether an option is a [WithBinaryPath] option. *)
Definition is_binary_path_option (o : Options.Option) : bool :=
  match o with Options.OptBinaryPath _ => true | _ => false end.

(** The bytes of a string. *)
Definition chars : string -> list ascii := list_ascii_of_string.

(** The value of a decimal numeral: an optional minus sign followed by at
    least one digit. *)
Fixpoint digits_value (acc : Z) (s : string) : option Z :=
  match s with
  | EmptyString => Some acc
  | String c s' =>
      let d := N_of_ascii c in
      if (48 <=? d)%N && (d <=? 57)%N
      then digits_value (acc * 10 + Z.of_N (d - 48))%Z s'
      else None
  end.

Definition decimal_value (s : string) : option Z :=
  match s with
  | EmptyString => None
  | String c s' =>
      if Ascii.eqb c "-"%char then
        match s' with
        | EmptyString => None
        | _ => option_map Z.opp (digits_value 0 s')
        end
      else digits_value 0 s
  end.

(** Whether an option is a [WithPorts] option. *)
Definition is_ports_option (o : Options.Option) : bool :=
  match o with Options.OptPorts _ _ => true | _ => false end.

Definition has_ports (hst : Host) : bool := negb (Nat.eqb (length (Ports hst)) 0).

(** Standard error reporting a failed allocation on its second line. *)
Definition env_malloc : Orchestrator.Env :=
  env_of ["Open 10.0.0.1:80" ++ nl] ("warning: slow" ++ nl ++ "Malloc Failed!" ++ nl).

(** A parser returning a report without scan-level error. *)
Definition report_ok : Model.Run := {| Hosts := [host1]; Stats_ := stats0 |}.

Definition parse_ok (_ : string) : Model.Run + string := inl report_ok.

(** [scanner0] with a port filter keeping open ports and a host filter
    keeping hosts that still have ports. *)
Definition scanner_open : Orchestrator.Scanner :=
  {| Orchestrator.args := Orchestrator.args scanner0;
     Orchestrator.binaryPath := Orchestrator.binaryPath scanner0;
     Orchestrator.portFilter := Some is_open;
     Orchestrator.hostFilter := Some has_ports |}.

End Fixtures.

Import Fixtures.

(* ================================================================== *)
(** * Properties *)

(** ** Helper lemmas *)

Lemma append_if_filter {A} (f : A -> bool) (xs acc : list A) :
  Filter.append_if f xs acc = app acc (List.filter f xs).
Proof.
  revert acc. induction xs as [|x xs IH]; intros acc; simpl.
  - by rewrite app_nil_r.
  - rewrite IH. destruct (f x); simpl; [by rewrite <- app_assoc | done].
Qed.

Lemma choosePorts_loop_spec (g : Port -> bool) (n idx : nat) (arr : list Host) :
  length arr = idx + n ->
  Filter.choosePorts_loop g idx n arr = app (take idx arr) (map (filtered_ports g) (drop idx arr)).
Proof.
  revert idx arr. induction n as [|n IH]; intros idx arr Hlen; simpl.
  - rewrite take_ge, drop_ge by lia. by rewrite app_nil_r.
  - destruct (lookup_lt_is_Some_2 arr idx) as [host Hhost]; [lia |].
    rewrite Hhost, append_if_filter. simpl.
    rewrite IH by (rewrite length_insert; lia).
    rewrite (take_S_r _ _ (set_Ports host (List.filter g (Ports host))))
      by (apply list_lookup_insert_eq; lia).
    rewrite take_insert_ge by lia.
    rewrite drop_insert_lt by lia.
    rewrite (drop_S arr host idx Hhost). simpl.
    by rewrite <- app_assoc.
Qed.

Lemma choosePorts_loop_map (g : Port -> bool) (arr : list Host) :
  Filter.choosePorts_loop g 0 (length arr) arr = map (filtered_ports g) arr.
Proof. rewrite choosePorts_loop_spec; done. Qed.

Lemma filter_true_id {A} (xs : list A) : List.filter (fun _ => true) xs = xs.
Proof. induction xs; simpl; congruence. Qed.

Lemma filter_false_nil {A} (xs : list A) : List.filter (fun _ => false) xs = [].
Proof. induction xs; done. Qed.

Lemma set_Ports_id (hst : Host) : set_Ports hst (Ports hst) = hst.
Proof. by destruct hst. Qed.

Lemma chooseHosts_read h p c f :
  runs h !! p = Some c ->
  after (Filter.chooseHosts h p f) =
    Some {| Hosts := List.filter f (slice_hosts h (cell_Hosts c)); Stats_ := cell_Stats c |}.
Proof.
  intros Hp. unfold Filter.chooseHosts. rewrite Hp, append_if_filter. simpl.
  destruct (List.filter f (slice_hosts h (cell_Hosts c))) as [|x xs] eqn:E;
    simpl; unfold read_run; simpl; rewrite lookup_insert_eq; simpl.
  - done.
  - by rewrite lookup_insert_eq.
Qed.

Lemma choosePorts_read h p c g :
  runs h !! p = Some c ->
  after (Filter.choosePorts h p g) =
    Some {| Hosts := map (filtered_ports g) (slice_hosts h (cell_Hosts c));
            Stats_ := cell_Stats c |}.
Proof.
  intros Hp. unfold Filter.choosePorts. rewrite Hp.
  destruct (cell_Hosts c) as [a|] eqn:Ea; simpl.
  - unfold read_run; simpl. rewrite Hp, Ea. simpl.
    rewrite lookup_insert_eq. simpl. by rewrite choosePorts_loop_map.
  - unfold read_run. rewrite Hp, Ea. done.
Qed.

(** ** C2: the synthesized payload *)

(** C2 (counterexample): the payload does not carry the caller's target
    (here [example.test]) as an address, and its elapsed time is 0.25
    seconds, not zero. *)
Lemma Structure_not_target_nor_zero_elapsed :
  ~ In "example.test" (Payload.attr_values Payload.Structure "addr") /\
  Payload.attr_values Payload.Structure "elapsed" = ["0.25"].
Proof.
  split.
  - vm_compute. intros [H|[H|[]]]; discriminate.
  - vm_compute. reflexivity.
Qed.

(** C2 (amended): [Structure] takes no target and returns a fixed payload
    with exactly one [host] element; that host and the [hosthint] element
    carry the hard-coded address [www.baidu.com] (the placeholder is
    replaced everywhere), the host has a single tcp port 80 in state
    [closed], and the finish statistics give elapsed 0.25 and no error
    message. *)
Theorem Structure_payload_contents :
  Payload.element_count Payload.Structure "host" = 1%nat /\
  Payload.element_count Payload.Structure "port" = 1%nat /\
  Payload.attr_values Payload.Structure "addr" = ["www.baidu.com"; "www.baidu.com"] /\
  Contains Payload.Structure "rustscan_info" = false /\
  Payload.attr_values Payload.Structure "portid" = ["80"] /\
  Payload.attr_values Payload.Structure "protocol" = ["tcp"; "tcp"] /\
  Payload.attr_values Payload.Structure "state" = ["up"; "up"; "closed"] /\
  Payload.attr_values Payload.Structure "elapsed" = ["0.25"] /\
  Payload.attr_values Payload.Structure "errormsg" = [].
Proof. repeat split; vm_compute; reflexivity. Qed.

(** ** C3: the filters and their input *)

(** C3 (counterexample): [choosePorts] and [chooseHosts] return the very
    pointer they were given, and the report behind it has changed. *)
Lemma filters_mutate_their_input :
  match Filter.choosePorts heap1 1%positive is_open with
  | Some (h', q) => q = 1%positive /\ read_run h' 1%positive <> read_run heap1 1%positive
  | None => False
  end /\
  match Filter.chooseHosts heap1 1%positive (fun _ => false) with
  | Some (h', q) => q = 1%positive /\ read_run h' 1%positive <> read_run heap1 1%positive
  | None => False
  end.
Proof. vm_compute. split; split; try reflexivity; discriminate. Qed.

(** C3 (amended): both filters update the report they are given in place
    and return the same pointer.  [chooseHosts] overwrites the report's
    [Hosts] field with a freshly allocated filtered sequence and leaves
    every existing host array as it was; [choosePorts] keeps the report's
    slice header and rewrites the [Ports] field of every host inside the
    existing host array, so every slice sharing that array sees the
    filtered ports. *)
Theorem filters_update_in_place (h : heap) (p : loc) (c : RunCell)
    (f : Host -> bool) (g : Port -> bool) :
  heap_wf h -> runs h !! p = Some c ->
  (exists h', Filter.chooseHosts h p f = Some (h', p) /\
     read_run h' p = Some {| Hosts := List.filter f (slice_hosts h (cell_Hosts c));
                             Stats_ := cell_Stats c |} /\
     forall a, is_Some (host_arrays h !! a) -> host_arrays h' !! a = host_arrays h !! a) /\
  (exists h', Filter.choosePorts h p g = Some (h', p) /\
     runs h' = runs h /\
     forall a, cell_Hosts c = Some a ->
       host_arrays h' !! a = Some (map (filtered_ports g) (default [] (host_arrays h !! a)))).
Proof.
  intros [Harr _] Hp. split.
  - pose proof (chooseHosts_read h p c f Hp) as Hread.
    unfold Filter.chooseHosts in *. rewrite Hp in *.
    rewrite append_if_filter in *. simpl in *.
    destruct (List.filter f (slice_hosts h (cell_Hosts c))) as [|x xs] eqn:E;
      simpl in *; eexists; (split; [reflexivity | split; [exact Hread |]]).
    + done.
    + intros a Ha. simpl. apply lookup_insert_ne.
      specialize (Harr a Ha). intros Heq. rewrite Heq in Harr.
      exact (Pos.lt_irrefl a Harr).
  - unfold Filter.choosePorts. rewrite Hp.
    destruct (cell_Hosts c) as [a|] eqn:Ea.
    + eexists. split; [reflexivity |]. split; [done |].
      intros a' [= <-]. simpl. rewrite lookup_insert_eq.
      by rewrite choosePorts_loop_map.
    + eexists. split; [reflexivity |]. split; [done | discriminate].
Qed.

Lemma filters_update_in_place_witness :
  heap_wf heap1 /\
  runs heap1 !! 1%positive = Some {| cell_Hosts := Some 2%positive; cell_Stats := stats0 |} /\
  ((exists h', Filter.chooseHosts heap1 1%positive (fun _ => false) = Some (h', 1%positive) /\
     read_run h' 1%positive =
       Some {| Hosts := List.filter (fun _ => false) (slice_hosts heap1 (Some 2%positive));
               Stats_ := stats0 |} /\
     forall a, is_Some (host_arrays heap1 !! a) -> host_arrays h' !! a = host_arrays heap1 !! a) /\
  (exists h', Filter.choosePorts heap1 1%positive is_open = Some (h', 1%positive) /\
     runs h' = runs heap1 /\
     forall a, Some 2%positive = Some a ->
       host_arrays h' !! a =
         Some (map (filtered_ports is_open) (default [] (host_arrays heap1 !! a))))).
Proof.
  assert (Hwf : heap_wf heap1).
  { split; intros a [v Hv]; unfold heap1 in Hv; simpl in Hv;
      apply lookup_singleton_Some in Hv as [<- _]; simpl; lia. }
  split; [exact Hwf | split; [reflexivity |]].
  apply (filters_update_in_place heap1 1%positive
           {| cell_Hosts := Some 2%positive; cell_Stats := stats0 |}); [exact Hwf | reflexivity].
Defined.

(** ** C7: the diagnostic classifier *)

(** C7: [analyzeWarnings] returns [ErrMallocFailed] exactly when some
    line, at any position, contains "Malloc Failed!", returns nil exactly
    when no line does, and returns no other error. *)
Theorem analyzeWarnings_spec (ws : list string) :
  (analyzeWarnings ws = Some ErrMallocFailed <->
     Exists (fun w => Contains w "Malloc Failed!" = true) ws) /\
  (analyzeWarnings ws = None <->
     Forall (fun w => Contains w "Malloc Failed!" = false) ws) /\
  (analyzeWarnings ws = None \/ analyzeWarnings ws = Some ErrMallocFailed).
Proof.
  induction ws as [|w ws IH]; simpl.
  - split; [split; [discriminate | intros H; inversion H] |].
    split; [split; [constructor | done] | by left].
  - destruct IH as [IH1 [IH2 IH3]].
    destruct (Contains w "Malloc Failed!") eqn:Hw.
    + split; [split; [intros _; by constructor | done] |].
      split; [split; [discriminate | intros H; inversion H; congruence] | by right].
    + split; [| split; [| exact IH3]].
      * rewrite IH1. split; [intros H; by constructor |].
        intros H; inversion H; [congruence | done].
      * rewrite IH2. split; [intros H; by constructor | intros H; by inversion H].
Qed.

(** ** C8: filters under constant and general predicates *)

(** C8: for a report at pointer [p], filtering with the always-true
    predicate leaves the report structurally equal, the always-false host
    filter leaves no hosts and the always-false port filter leaves every
    host with no ports; in general the kept hosts (ports of each host) are
    exactly those satisfying the predicate, in their original order. *)
Theorem filters_true_false_order (h : heap) (p : loc) (c : RunCell) :
  runs h !! p = Some c ->
  after (Filter.chooseHosts h p (fun _ => true)) = read_run h p /\
  after (Filter.choosePorts h p (fun _ => true)) = read_run h p /\
  after (Filter.chooseHosts h p (fun _ => false)) =
    Some {| Hosts := []; Stats_ := cell_Stats c |} /\
  after (Filter.choosePorts h p (fun _ => false)) =
    Some {| Hosts := map (fun hst => set_Ports hst []) (slice_hosts h (cell_Hosts c));
            Stats_ := cell_Stats c |} /\
  (forall f, after (Filter.chooseHosts h p f) =
     Some {| Hosts := List.filter f (slice_hosts h (cell_Hosts c)); Stats_ := cell_Stats c |}) /\
  (forall g, after (Filter.choosePorts h p g) =
     Some {| Hosts := map (fun hst => set_Ports hst (List.filter g (Ports hst)))
                          (slice_hosts h (cell_Hosts c));
             Stats_ := cell_Stats c |}).
Proof.
  intros Hp.
  assert (Hr : read_run h p =
            Some {| Hosts := slice_hosts h (cell_Hosts c); Stats_ := cell_Stats c |}).
  { unfold read_run. by rewrite Hp. }
  rewrite Hr.
  split; [| split; [| split; [| split; [| split]]]].
  - by rewrite (chooseHosts_read _ _ c), filter_true_id.
  - rewrite (choosePorts_read _ _ c) by done.
    assert (Hid : forall l, map (filtered_ports (fun _ => true)) l = l).
    { induction l as [|x xs IH]; simpl; [done |].
      unfold filtered_ports at 1. by rewrite filter_true_id, set_Ports_id, IH. }
    by rewrite Hid.
  - by rewrite (chooseHosts_read _ _ c), filter_false_nil.
  - rewrite (choosePorts_read _ _ c) by done.
    do 2 f_equal. apply map_ext. intros hst. unfold filtered_ports.
    by rewrite filter_false_nil.
  - intros f. by apply chooseHosts_read.
  - intros g. by apply choosePorts_read.
Qed.

Lemma filters_true_false_order_witness :
  runs heap1 !! 1%positive = Some {| cell_Hosts := Some 2%positive; cell_Stats := stats0 |} /\
  after (Filter.chooseHosts heap1 1%positive (fun _ => true)) = read_run heap1 1%positive.
Proof.
  split; [reflexivity |].
  apply (filters_true_false_order heap1 1%positive
           {| cell_Hosts := Some 2%positive; cell_Stats := stats0 |}).
  reflexivity.
Defined.

(** ** C10: port filtering keeps the host structure *)

(** C10: [choosePorts] keeps the report's cell (hence its slice header),
    the number and order of hosts, and each host's addresses and
    hostnames; each host keeps exactly the ports the predicate accepts,
    and a host whose ports are all rejected stays with no ports. *)
Theorem choosePorts_keeps_hosts (h : heap) (p : loc) (c : RunCell) (g : Port -> bool) :
  runs h !! p = Some c ->
  exists h', Filter.choosePorts h p g = Some (h', p) /\ runs h' = runs h /\
    length (slice_hosts h' (cell_Hosts c)) = length (slice_hosts h (cell_Hosts c)) /\
    (forall i hst, slice_hosts h (cell_Hosts c) !! i = Some hst ->
       exists hst', slice_hosts h' (cell_Hosts c) !! i = Some hst' /\
         Addresses hst' = Addresses hst /\ Hostnames hst' = Hostnames hst /\
         Ports hst' = List.filter g (Ports hst)) /\
    (forall i hst, slice_hosts h (cell_Hosts c) !! i = Some hst ->
       forallb (fun pt => negb (g pt)) (Ports hst) = true ->
       exists hst', slice_hosts h' (cell_Hosts c) !! i = Some hst' /\ Ports hst' = []).
Proof.
  intros Hp.
  assert (Hmap : exists h', Filter.choosePorts h p g = Some (h', p) /\ runs h' = runs h /\
            slice_hosts h' (cell_Hosts c) = map (filtered_ports g) (slice_hosts h (cell_Hosts c))).
  { unfold Filter.choosePorts. rewrite Hp.
    destruct (cell_Hosts c) as [a|] eqn:Ea.
    - eexists. split; [reflexivity |]. split; [done |]. simpl.
      rewrite lookup_insert_eq. simpl. by rewrite choosePorts_loop_map.
    - eexists. split; [reflexivity |]. done. }
  destruct Hmap as [h' [Hc [Hruns Hs]]].
  exists h'. split; [done | split; [done |]]. rewrite Hs.
  split; [by rewrite length_map |].
  assert (Hi : forall i hst, slice_hosts h (cell_Hosts c) !! i = Some hst ->
            map (filtered_ports g) (slice_hosts h (cell_Hosts c)) !! i =
              Some (filtered_ports g hst)).
  { intros i hst H. by rewrite list_lookup_fmap, H. }
  split.
  - intros i hst H. eexists. split; [by apply Hi |]. by destruct hst.
  - intros i hst H Hall. eexists. split; [by apply Hi |]. simpl.
    clear -Hall. induction (Ports hst) as [|x xs IH]; simpl in *; [done |].
    apply andb_prop in Hall as [Hx Hxs]. destruct (g x); [done |]. by apply IH.
Qed.

Lemma choosePorts_keeps_hosts_witness :
  runs heap1 !! 1%positive = Some {| cell_Hosts := Some 2%positive; cell_Stats := stats0 |} /\
  exists h', Filter.choosePorts heap1 1%positive is_open = Some (h', 1%positive) /\
    runs h' = runs heap1 /\
    length (slice_hosts h' (Some 2%positive)) = length (slice_hosts heap1 (Some 2%positive)) /\
    (forall i hst, slice_hosts heap1 (Some 2%positive) !! i = Some hst ->
       exists hst', slice_hosts h' (Some 2%positive) !! i = Some hst' /\
         Addresses hst' = Addresses hst /\ Hostnames hst' = Hostnames hst /\
         Ports hst' = List.filter is_open (Ports hst)) /\
    (forall i hst, slice_hosts heap1 (Some 2%positive) !! i = Some hst ->
       forallb (fun pt => negb (is_open pt)) (Ports hst) = true ->
       exists hst', slice_hosts h' (Some 2%positive) !! i = Some hst' /\ Ports hst' = []).
Proof.
  split; [reflexivity |].
  apply (choosePorts_keeps_hosts heap1 1%positive
           {| cell_Hosts := Some 2%positive; cell_Stats := stats0 |} is_open).
  reflexivity.
Defined.

(** ** The orchestrator *)

Lemma wrap64_small (z : Z) : (- 2 ^ 63 <= z < 2 ^ 63)%Z -> Orchestrator.wrap64 z = z.
Proof.
  intros Hz. unfold Orchestrator.wrap64.
  rewrite Z.mod_small by lia. lia.
Qed.

Lemma read_step_count (data o : string) (n0 : Z) :
  (0 <= n0)%Z -> (n0 + 1 < 2 ^ 63)%Z ->
  (snd (Orchestrator.read_step data (o, n0)) = n0 \/
   snd (Orchestrator.read_step data (o, n0)) = n0 + 1)%Z.
Proof.
  intros H0 H1. unfold Orchestrator.read_step. simpl.
  destruct (Contains _ _); [right; apply wrap64_small; lia | by left].
Qed.

(** Without wrap-around, the counter grows by at most one per read. *)
Lemma read_loop_count (reads : list string) :
  forall o n0 o' n evs,
  (0 <= n0)%Z -> (n0 + Z.of_nat (length reads) + 1 < 2 ^ 63)%Z ->
  Orchestrator.read_loop reads (o, n0) = (o', n, evs) ->
  (n0 <= n <= n0 + Z.of_nat (length reads) + 1)%Z.
Proof.
  induction reads as [|data rest IH]; intros o n0 o' n evs H0 Hb Hl;
    cbn [Orchestrator.read_loop length] in *.
  - destruct (read_step_count "" o n0) as [Hs|Hs]; try lia;
      destruct (Orchestrator.read_step "" (o, n0)) as [o1 n1] eqn:E;
      simpl in Hs; injection Hl as <- <- <-; lia.
  - destruct (read_step_count data o n0) as [Hs|Hs]; try lia;
      destruct (Orchestrator.read_step data (o, n0)) as [o1 n1] eqn:E; simpl in Hs;
      destruct (Orchestrator.read_loop rest (o1, n1)) as [[o2 n2] evs2] eqn:E2;
      injection Hl as <- <- <-;
      (assert (Hr : (n1 <= n2 <= n1 + Z.of_nat (length rest) + 1)%Z)
         by (eapply IH; [| | exact E2]; lia)); lia.
Qed.

(** C9: with a negative limit, once the process has started and its
    standard output has reached end-of-stream, [Run] kills the process and
    returns the CDN-suspected error with no report and no warnings, whatever
    the output (also without any open-port line). *)
Theorem Run_negative_limit_aborts (Parse : string -> Model.Run + string)
    (s : Orchestrator.Scanner) (limit : Z) (env : Orchestrator.Env) :
  (limit < 0)%Z -> Orchestrator.start_error env = None ->
  (Z.of_nat (length (Orchestrator.stdout_reads env)) + 1 < 2 ^ 63)%Z ->
  let o := Orchestrator.Run Parse s limit env in
  Orchestrator.result o = None /\ Orchestrator.warnings o = [] /\
  Orchestrator.err o = Some ErrScanCDN /\
  exists evs, Orchestrator.trace o = app evs [Orchestrator.EvKill].
Proof.
  intros Hlim Hstart Hlen. unfold Orchestrator.Run. rewrite Hstart.
  destruct (Orchestrator.read_loop (Orchestrator.stdout_reads env) ("", 0%Z))
    as [[o' n] evs] eqn:E.
  apply read_loop_count in E; [| lia | lia].
  replace (Z.ltb limit n) with true by (symmetry; apply Z.ltb_lt; lia).
  simpl. repeat split.
  exists (Orchestrator.EvStart (Orchestrator.binaryPath s)
            (Orchestrator.run_args (Orchestrator.args s)) :: evs).
  reflexivity.
Qed.

Lemma Run_negative_limit_aborts_witness :
  (-1 < 0)%Z /\ Orchestrator.start_error (env_of [] "") = None /\
  let o := Orchestrator.Run failing_parse scanner0 (-1) (env_of [] "") in
  Orchestrator.result o = None /\ Orchestrator.warnings o = [] /\
  Orchestrator.err o = Some ErrScanCDN /\
  exists evs, Orchestrator.trace o = app evs [Orchestrator.EvKill].
Proof.
  split; [lia | split; [reflexivity |]].
  apply (Run_negative_limit_aborts failing_parse scanner0 (-1) (env_of [] ""));
    [lia | reflexivity | simpl; lia].
Defined.

(** C1 (code at the failing input): the counter already exceeds the limit
    0 after the first read, yet [Run] performs every later read, up to and
    including the end-of-stream read, before it kills the process; it
    then returns the CDN-suspected error with no report and no warnings. *)
Lemma Run_cdn_abort_after_eof :
  snd (Orchestrator.read_step ("Open 10.0.0.1:80" ++ nl) ("", 0%Z)) = 1%Z /\
  let o := Orchestrator.Run failing_parse scanner0 0 env_cdn in
  Orchestrator.trace o =
    [Orchestrator.EvStart "rustscan" (app (Orchestrator.args scanner0) ["--"; "-oX"; "-"]);
     Orchestrator.EvRead ("Open 10.0.0.1:80" ++ nl) false;
     Orchestrator.EvRead ("[~] Starting Nmap" ++ nl) false;
     Orchestrator.EvRead "" true;
     Orchestrator.EvKill] /\
  Orchestrator.err o = Some ErrScanCDN /\ Orchestrator.result o = None /\
  Orchestrator.warnings o = [].
Proof. repeat split; vm_compute; reflexivity. Qed.

(** C4 (code at the failing input): one read carrying two open-port lines
    raises the counter once, while the accumulated text holds two markers;
    with limit 1 the scan is therefore not aborted. *)
Lemma read_loop_counts_reads_not_markers :
  (let '(out_tmp, n, _) :=
     Orchestrator.read_loop (Orchestrator.stdout_reads env_two_in_one) ("", 0%Z) in
   n = 1%Z /\ Count out_tmp Orchestrator.open_marker = 2%nat) /\
  Orchestrator.err (Orchestrator.Run failing_parse scanner0 1 env_two_in_one) =
    Some ErrParseOutput.
Proof. split; [vm_compute; split; reflexivity | vm_compute; reflexivity]. Qed.

(** C5 (counterexample): with non-empty standard error, both the heuristic
    abort and the timeout return a nil warnings sequence, although the
    process did start. *)
Lemma Run_abort_and_timeout_drop_stderr :
  let o1 := Orchestrator.Run failing_parse scanner0 0 env_cdn in
  let o2 := Orchestrator.Run failing_parse scanner0 30 env_timeout in
  Orchestrator.start_error env_cdn = None /\
  Orchestrator.stderr_warnings (Orchestrator.stderr_output env_cdn) = ["warning: slow"] /\
  Orchestrator.err o1 = Some ErrScanCDN /\ Orchestrator.warnings o1 = [] /\
  Orchestrator.start_error env_timeout = None /\
  Orchestrator.stderr_warnings (Orchestrator.stderr_output env_timeout) = ["warning: slow"] /\
  Orchestrator.err o2 = Some ErrScanTimeout /\ Orchestrator.warnings o2 = [].
Proof. repeat split; vm_compute; reflexivity. Qed.

(** C5 (amended): [Run] returns a nil warnings sequence on spawn failure,
    on the heuristic abort and on the timeout; only once process exit wins
    the completion race are the warnings taken from standard error (when
    it is non-empty), and every later path returns those lines: the
    classifier error and the report paths return exactly them, and every
    parse failure returns them followed by the parser's error text, with
    [ErrParseOutput]. *)
Theorem Run_warnings_by_path (Parse : string -> Model.Run + string)
    (s : Orchestrator.Scanner) (limit : Z) (env : Orchestrator.Env) :
  let o := Orchestrator.Run Parse s limit env in
  match Orchestrator.start_error env with
  | Some _ => Orchestrator.warnings o = [] /\ Orchestrator.trace o = []
  | None =>
      let '(out_tmp, n, _) := Orchestrator.read_loop (Orchestrator.stdout_reads env) ("", 0%Z) in
      if Z.ltb limit n then
        Orchestrator.warnings o = [] /\ Orchestrator.err o = Some ErrScanCDN
      else if Orchestrator.ctx_done_first env then
        Orchestrator.warnings o = [] /\ Orchestrator.err o = Some ErrScanTimeout
      else
        let ws := Orchestrator.stderr_warnings (Orchestrator.stderr_output env) in
        (analyzeWarnings ws <> None ->
           Orchestrator.warnings o = ws /\ Orchestrator.err o = analyzeWarnings ws) /\
        (analyzeWarnings ws = None -> forall perr,
           Parse (Orchestrator.extract_out out_tmp) = inr perr ->
           Orchestrator.warnings o = app ws [perr] /\ Orchestrator.err o = Some ErrParseOutput) /\
        (analyzeWarnings ws = None -> forall r,
           Parse (Orchestrator.extract_out out_tmp) = inl r ->
           Orchestrator.warnings o = ws)
  end.
Proof.
  unfold Orchestrator.Run.
  destruct (Orchestrator.start_error env) as [e|]; [done |].
  destruct (Orchestrator.read_loop (Orchestrator.stdout_reads env) ("", 0%Z))
    as [[o' n] evs].
  destruct (Z.ltb limit n); [done |].
  destruct (Orchestrator.ctx_done_first env); [done |].
  destruct (analyzeWarnings _) as [e|] eqn:Ea.
  { split; [done | split; intros H; discriminate H]. }
  split; [done |]. split.
  - intros _ perr Hp. by rewrite Hp.
  - intros _ r Hp. rewrite Hp.
    destruct (Nat.ltb _ _); [destruct (Contains _ _) |]; done.
Qed.

(** C6 (code at the failing input): a scan-level error message holding a
    percent sign is passed to [fmt.Errorf] as a format string, so the
    returned error text is not the message. *)
Lemma Run_scan_error_message_reformatted :
  let o := Orchestrator.Run parse_pct scanner0 30 (env_of [] "") in
  Orchestrator.result o = Some report_pct /\
  Orchestrator.err o = Some (ErrorString "progress 50%!s(MISSING) lost") /\
  Orchestrator.err o <> Some (ErrorString pct_msg).
Proof.
  split; [vm_compute; reflexivity |]. split; [vm_compute; reflexivity |].
  vm_compute. discriminate.
Qed.

(* ================================================================== *)
(** * Further properties of the package *)

(** ** String helpers *)

(** [String.append] does not unfold under [simpl]; its two equations: *)
Lemma str_app_nil_l (b : string) : "" ++ b = b.
Proof. reflexivity. Qed.

Lemma str_app_cons (x : ascii) (a b : string) : String x a ++ b = String x (a ++ b).
Proof. reflexivity. Qed.

Lemma str_app_assoc (a b c : string) : (a ++ b) ++ c = a ++ (b ++ c).
Proof. induction a as [|x a IH]; [done | by rewrite !str_app_cons, IH]. Qed.

Lemma str_app_nil_r (a : string) : a ++ "" = a.
Proof. induction a as [|x a IH]; [done | by rewrite str_app_cons, IH]. Qed.

Lemma str_length_app (a b : string) : String.length (a ++ b) = (String.length a + String.length b)%nat.
Proof. induction a as [|x a IH]; [done | rewrite str_app_cons; simpl; by rewrite IH]. Qed.

(** ** Options *)

Lemma index_of_spec (x : string) (l : list string) (i : nat) :
  Options.index_of x l = Some i -> l !! i = Some x /\ (forall j, (j < i)%nat -> l !! j <> Some x).
Proof.
  revert i. induction l as [|y l IH]; intros i H; simpl in H; [discriminate |].
  destruct (String.eqb_spec y x) as [->|Hne].
  - injection H as <-. split; [done | intros j Hj; lia].
  - destruct (Options.index_of x l) as [k|] eqn:E; simpl in H; [| discriminate].
    injection H as <-. destruct (IH k eq_refl) as [Hk Hlt].
    split; [done |]. intros [|j] Hj; simpl; [congruence |]. apply Hlt. lia.
Qed.

Lemma AddOptions_app (s : Orchestrator.Scanner) (o1 o2 : list Options.Option)
    (cl : Options.closures) :
  Options.AddOptions s (app o1 o2) cl =
    match Options.AddOptions s o1 cl with
    | Some (s', cl') => Options.AddOptions s' o2 cl'
    | None => None
    end.
Proof.
  revert s cl. induction o1 as [|o o1 IH]; intros s cl; simpl; [done |].
  destruct (Options.apply_option o cl s) as [[s' cl']|]; [apply IH | done].
Qed.

Lemma AddOptions_keeps_binaryPath (s : Orchestrator.Scanner) (opts : list Options.Option)
    (cl : Options.closures) (s' : Orchestrator.Scanner) (cl' : Options.closures) :
  forallb (fun o => negb (is_binary_path_option o)) opts = true ->
  Options.AddOptions s opts cl = Some (s', cl') ->
  Orchestrator.binaryPath s' = Orchestrator.binaryPath s.
Proof.
  revert s cl. induction opts as [|o opts IH]; intros s cl Hall H; simpl in *.
  - by injection H as <- _.
  - apply andb_prop in Hall as [Ho Hall].
    destruct (Options.apply_option o cl s) as [[s1 cl1]|] eqn:E; [| discriminate].
    rewrite (IH s1 cl1 Hall H).
    destruct o; simpl in Ho; try discriminate; unfold Options.apply_option in E;
      repeat case_match; try discriminate E; injection E as <- _; reflexivity.
Qed.

Lemma index_of_app_none (x : string) (l m : list string) :
  Options.index_of x l = None ->
  Options.index_of x (app l m) = option_map (Nat.add (length l)) (Options.index_of x m).
Proof.
  induction l as [|y l IH]; intros H; simpl in *.
  - by destruct (Options.index_of x m).
  - destruct (String.eqb y x); [discriminate |].
    destruct (Options.index_of x l); [discriminate |].
    rewrite IH by done. by destruct (Options.index_of x m).
Qed.

(** X1: two [WithPorts] options in a row on a scanner without ["-p"]: when
    the first joined list holds a comma, the first appends ["-p"] and its
    ports and the second merges its ports into that same argument; when
    it holds none, the first appends ["-r"] and its single port, and the
    second, finding no ["-p"], appends a flag and its ports of its own. *)
Theorem WithPorts_twice (ps qs : list string) (cl : Options.closures) (s : Orchestrator.Scanner) :
  Options.index_of "-p" (Orchestrator.args s) = None ->
  let o1 := fst (Options.WithPorts ps cl) in
  let o2 := fst (Options.WithPorts qs (snd (Options.WithPorts ps cl))) in
  let cl2 := snd (Options.WithPorts qs (snd (Options.WithPorts ps cl))) in
  let jp := Options.Join ps "," in
  let jq := Options.Join qs "," in
  (Contains jp "," = true ->
   exists cl4, Options.AddOptions s [o1; o2] cl2 =
     Some (Options.set_args s (app (Orchestrator.args s) ["-p"; jp ++ "," ++ jq]), cl4)) /\
  (Contains jp "," = false -> jp <> "-p" ->
   exists cl4, Options.AddOptions s [o1; o2] cl2 =
     Some (Options.set_args s (app (Orchestrator.args s)
             ["-r"; jp; if Contains jq "," then "-p" else "-r"; jq]), cl4)).
Proof.
  intros Hs o1 o2 cl2 jp jq.
  assert (Hn : Pos.succ (Options.next_cap cl) <> Options.next_cap cl) by lia.
  unfold o1, o2, cl2, jp, jq, Options.WithPorts. cbn [fst snd Options.AddOptions].
  unfold Options.apply_option. cbn [Options.captured Options.next_cap].
  rewrite lookup_insert_ne by done. rewrite lookup_insert_eq. cbn [default].
  rewrite Hs. cbn [Options.set_args Orchestrator.args].
  rewrite index_of_app_none by done. simpl option_map.
  split.
  - intros Hc. rewrite Hc. simpl.
    rewrite lookup_app_r by lia.
    replace (S (length (Orchestrator.args s) + 0) - length (Orchestrator.args s))%nat with 1%nat by lia.
    simpl. rewrite lookup_insert_eq. simpl.
    rewrite insert_app_r_alt by lia.
    replace (S (length (Orchestrator.args s) + 0) - length (Orchestrator.args s))%nat with 1%nat by lia.
    by eexists.
  - intros Hc Hp. rewrite Hc. simpl.
    destruct (String.eqb_spec (Options.Join ps ",") "-p") as [E|_]; [contradiction |].
    simpl. rewrite lookup_insert_eq. simpl.
    rewrite <- app_assoc. by eexists.
Qed.

Lemma WithPorts_twice_witness :
  let cl := {| Options.captured := ∅; Options.next_cap := 1%positive |} in
  let o1 := fst (Options.WithPorts ["80"; "443"] cl) in
  let o2 := fst (Options.WithPorts ["8080"] (snd (Options.WithPorts ["80"; "443"] cl))) in
  let cl2 := snd (Options.WithPorts ["8080"] (snd (Options.WithPorts ["80"; "443"] cl))) in
  let jp := Options.Join ["80"; "443"] "," in
  let jq := Options.Join ["8080"] "," in
  (Contains jp "," = true ->
   exists cl4, Options.AddOptions Options.empty_scanner [o1; o2] cl2 =
     Some (Options.set_args Options.empty_scanner
             (app (Orchestrator.args Options.empty_scanner) ["-p"; jp ++ "," ++ jq]), cl4)) /\
  (Contains jp "," = false -> jp <> "-p" ->
   exists cl4, Options.AddOptions Options.empty_scanner [o1; o2] cl2 =
     Some (Options.set_args Options.empty_scanner (app (Orchestrator.args Options.empty_scanner)
             ["-r"; jp; if Contains jq "," then "-p" else "-r"; jq]), cl4)).
Proof.
  apply (WithPorts_twice ["80"; "443"] ["8080"]
           {| Options.captured := ∅; Options.next_cap := 1%positive |} Options.empty_scanner).
  reflexivity.
Defined.

(** X2: the [portList] a [WithPorts] closure captures is assigned when the
    closure merges into an existing ["-p"] argument, so the same option
    applied afterwards to a scanner without ["-p"] appends the earlier
    scanner's ports along with its own. *)
Theorem WithPorts_reuse_carries_ports (ports : list string) (cl : Options.closures)
    (o : Options.Option) (cl1 : Options.closures) (s1 s2 : Orchestrator.Scanner)
    (place : nat) (old : string) :
  Options.WithPorts ports cl = (o, cl1) ->
  Options.index_of "-p" (Orchestrator.args s1) = Some place ->
  Orchestrator.args s1 !! S place = Some old ->
  Options.index_of "-p" (Orchestrator.args s2) = None ->
  exists s1' cl2 cl3,
    Options.apply_option o cl1 s1 = Some (s1', cl2) /\
    Options.apply_option o cl2 s2 =
      Some (Options.set_args s2 (app (Orchestrator.args s2)
              [if Contains (Options.Join ports ",") "," then "-p" else "-r";
               old ++ "," ++ Options.Join ports ","]), cl3).
Proof.
  intros Hw H1 H1' H2. unfold Options.WithPorts in Hw. injection Hw as <- <-.
  simpl. rewrite lookup_insert_eq, H1, H1'. simpl.
  do 3 eexists. split; [reflexivity |]. simpl.
  rewrite insert_insert_eq, lookup_insert_eq, H2. simpl. reflexivity.
Qed.

Lemma WithPorts_reuse_carries_ports_witness :
  let cl := {| Options.captured := ∅; Options.next_cap := 1%positive |} in
  let s1 := Options.set_args Options.empty_scanner ["-p"; "22"] in
  let s2 := Options.empty_scanner in
  exists s1' cl2 cl3,
    Options.apply_option (fst (Options.WithPorts ["80"; "443"] cl))
      (snd (Options.WithPorts ["80"; "443"] cl)) s1 = Some (s1', cl2) /\
    Options.apply_option (fst (Options.WithPorts ["80"; "443"] cl)) cl2 s2 =
      Some (Options.set_args s2 (app (Orchestrator.args s2)
              [if Contains (Options.Join ["80"; "443"] ",") "," then "-p" else "-r";
               "22" ++ "," ++ Options.Join ["80"; "443"] ","]), cl3).
Proof.
  apply (WithPorts_reuse_carries_ports ["80"; "443"]
           {| Options.captured := ∅; Options.next_cap := 1%positive |}
           _ _ (Options.set_args Options.empty_scanner ["-p"; "22"]) Options.empty_scanner 0%nat "22");
    reflexivity.
Defined.

(** X3: [NewScanner] looks the binary up only when no option set a
    non-empty binary path: a final [WithBinaryPath p] with [p] non-empty
    gives a scanner with binary [p] whatever the lookup would find; without
    any [WithBinaryPath], the scanner gets the path the lookup finds, and
    [ErrRustScanNotInstalled] when the lookup finds nothing. *)
Theorem NewScanner_binary_lookup (opts : list Options.Option) (cl : Options.closures)
    (s : Orchestrator.Scanner) (cl' : Options.closures) :
  Options.AddOptions Options.empty_scanner opts cl = Some (s, cl') ->
  (forall p lookPath, p <> "" ->
     Options.NewScanner (app opts [Options.WithBinaryPath p]) cl lookPath =
       Some (inl {| Orchestrator.args := Orchestrator.args s; Orchestrator.binaryPath := p;
                    Orchestrator.portFilter := Orchestrator.portFilter s;
                    Orchestrator.hostFilter := Orchestrator.hostFilter s |}, cl')) /\
  (forallb (fun o => negb (is_binary_path_option o)) opts = true ->
     Options.NewScanner opts cl None = Some (inr ErrRustScanNotInstalled, cl') /\
     forall path, Options.NewScanner opts cl (Some path) =
       Some (inl {| Orchestrator.args := Orchestrator.args s; Orchestrator.binaryPath := path;
                    Orchestrator.portFilter := Orchestrator.portFilter s;
                    Orchestrator.hostFilter := Orchestrator.hostFilter s |}, cl')).
Proof.
  intros H. split.
  - intros p lookPath Hp. unfold Options.NewScanner.
    rewrite AddOptions_app, H. simpl.
    destruct (String.eqb_spec p ""); [contradiction | done].
  - intros Hall.
    pose proof (AddOptions_keeps_binaryPath _ _ _ _ _ Hall H) as Hb.
    unfold Options.NewScanner. rewrite H, Hb. simpl. split; [done | by intros path].
Qed.

Lemma NewScanner_binary_lookup_witness :
  Options.AddOptions Options.empty_scanner [Options.WithTargets ["example.test"]]
    {| Options.captured := ∅; Options.next_cap := 1%positive |} =
    Some (Options.set_args Options.empty_scanner ["-a"; "example.test"],
          {| Options.captured := ∅; Options.next_cap := 1%positive |}) /\
  Options.NewScanner [Options.WithTargets ["example.test"]]
    {| Options.captured := ∅; Options.next_cap := 1%positive |} None =
    Some (inr ErrRustScanNotInstalled, {| Options.captured := ∅; Options.next_cap := 1%positive |}).
Proof.
  split; [reflexivity |].
  apply (NewScanner_binary_lookup [Options.WithTargets ["example.test"]]
           {| Options.captured := ∅; Options.next_cap := 1%positive |}
           (Options.set_args Options.empty_scanner ["-a"; "example.test"])
           {| Options.captured := ∅; Options.next_cap := 1%positive |});
    reflexivity.
Defined.

(** ** The orchestrator, stage by stage *)

Lemma run_args_spec (a : list string) :
  (In "--resume" a -> Orchestrator.run_args a = a) /\
  (~ In "--resume" a -> Orchestrator.run_args a = app a ["--"; "-oX"; "-"]).
Proof.
  unfold Orchestrator.run_args.
  destruct (existsb (String.eqb "--resume") a) eqn:E; simpl.
  - split; [done |]. intros Hn. exfalso. apply Hn.
    apply existsb_exists in E as [x [Hx Hxe]]. apply String.eqb_eq in Hxe. by subst.
  - split; [| done]. intros Hin. exfalso.
    assert (existsb (String.eqb "--resume") a = true) as E'
      by (apply existsb_exists; exists "--resume"; split; [done | apply String.eqb_refl]).
    congruence.
Qed.

(** X4: once started, [Run] spawns the configured binary with the
    scanner's arguments unchanged when one of them is ["--resume"], and
    otherwise with ["--"; "-oX"; "-"] appended; the spawn is the first
    event of every path. *)
Theorem Run_spawn_arguments (Parse : string -> Model.Run + string)
    (s : Orchestrator.Scanner) (limit : Z) (env : Orchestrator.Env) :
  Orchestrator.start_error env = None ->
  exists argv rest,
    Orchestrator.trace (Orchestrator.Run Parse s limit env) =
      Orchestrator.EvStart (Orchestrator.binaryPath s) argv :: rest /\
    (In "--resume" (Orchestrator.args s) -> argv = Orchestrator.args s) /\
    (~ In "--resume" (Orchestrator.args s) ->
       argv = app (Orchestrator.args s) ["--"; "-oX"; "-"]).
Proof.
  intros Hs. exists (Orchestrator.run_args (Orchestrator.args s)).
  unfold Orchestrator.Run. rewrite Hs.
  destruct (Orchestrator.read_loop (Orchestrator.stdout_reads env) ("", 0%Z))
    as [[o n] evs].
  destruct (run_args_spec (Orchestrator.args s)) as [H1 H2].
  destruct (Z.ltb limit n); [eexists; split; [reflexivity | done] |].
  destruct (Orchestrator.ctx_done_first env); [eexists; split; [reflexivity | done] |].
  destruct (analyzeWarnings _); [eexists; split; [reflexivity | done] |].
  destruct (Parse _) as [r|perr]; [| eexists; split; [reflexivity | done]].
  destruct (Nat.ltb _ _); [destruct (Contains _ _) |];
    eexists; split; [reflexivity | done | reflexivity | done | reflexivity | done].
Qed.

Lemma Run_spawn_arguments_witness :
  Orchestrator.start_error (env_of [] "") = None /\
  exists argv rest,
    Orchestrator.trace (Orchestrator.Run failing_parse scanner0 30 (env_of [] "")) =
      Orchestrator.EvStart (Orchestrator.binaryPath scanner0) argv :: rest /\
    (In "--resume" (Orchestrator.args scanner0) -> argv = Orchestrator.args scanner0) /\
    (~ In "--resume" (Orchestrator.args scanner0) ->
       argv = app (Orchestrator.args scanner0) ["--"; "-oX"; "-"]).
Proof.
  split; [reflexivity |].
  apply (Run_spawn_arguments failing_parse scanner0 30 (env_of [] "")). reflexivity.
Defined.

Lemma concat_empty_cons (x : string) (l : list string) :
  String.concat "" (x :: l) = x ++ String.concat "" l.
Proof. destruct l as [|y l]; [by rewrite str_app_nil_r | reflexivity]. Qed.

Lemma concat_repeat_length (c : ascii) (k : nat) :
  String.length (String.concat "" (repeat (String c EmptyString) k)) = k.
Proof.
  induction k as [|k IH]; [done |]. simpl repeat.
  rewrite concat_empty_cons, str_length_app, IH. done.
Qed.

Lemma string_of_buf_length (d : string) :
  (String.length d <= 1024)%nat -> String.length (Orchestrator.string_of_buf d) = 1024%nat.
Proof.
  intros Hd. unfold Orchestrator.string_of_buf.
  rewrite str_length_app, concat_repeat_length. unfold Orchestrator.buf_size. lia.
Qed.

Lemma read_step_out (d o : string) (n : Z) :
  exists n', Orchestrator.read_step d (o, n) = (o ++ Orchestrator.string_of_buf d, n').
Proof. eexists. reflexivity. Qed.

Lemma read_loop_out (reads : list string) :
  forall o n o' n' evs,
  Forall (fun d => (String.length d <= 1024)%nat) reads ->
  Orchestrator.read_loop reads (o, n) = (o', n', evs) ->
  (exists pre, o' = o ++ pre ++ Orchestrator.string_of_buf "" /\
     String.length (pre ++ Orchestrator.string_of_buf "") = (1024 * (length reads + 1))%nat) /\
  evs = app (map (fun d => Orchestrator.EvRead d false) reads) [Orchestrator.EvRead "" true].
Proof.
  induction reads as [|d rest IH]; intros o n o' n' evs Hall Hl;
    cbn [Orchestrator.read_loop] in Hl.
  - destruct (read_step_out "" o n) as [n1 E]. rewrite E in Hl.
    injection Hl as <- <- <-. split; [| done].
    exists "". split; [done |]. rewrite str_app_nil_l, string_of_buf_length by (simpl; lia).
    simpl. lia.
  - inversion Hall as [|? ? Hd Hrest]; subst.
    destruct (read_step_out d o n) as [n1 E]. rewrite E in Hl.
    destruct (Orchestrator.read_loop rest (o ++ Orchestrator.string_of_buf d, n1))
      as [[o2 n2] evs2] eqn:E2.
    injection Hl as <- <- <-.
    destruct (IH _ _ _ _ _ Hrest E2) as [[pre [Ho Hlen]] Hevs].
    split; [| by rewrite Hevs].
    exists (Orchestrator.string_of_buf d ++ pre). split.
    + rewrite Ho. by rewrite !str_app_assoc.
    + rewrite str_app_assoc, str_length_app, Hlen, string_of_buf_length by done.
      simpl. lia.
Qed.

(** X5: when every read delivers at most 1024 bytes, the read loop of
    [Run] performs each read in order and then the end-of-stream read, and
    the accumulated text holds the whole 1024-byte buffer of every read:
    its length is 1024 times the number of reads plus one, and it ends with
    the 1024 zero bytes of the final, empty buffer. *)
Theorem read_loop_accumulates (reads : list string) :
  Forall (fun d => (String.length d <= 1024)%nat) reads ->
  let '(out_tmp, _, evs) := Orchestrator.read_loop reads ("", 0%Z) in
  String.length out_tmp = (1024 * (length reads + 1))%nat /\
  (exists pre, out_tmp = pre ++ Orchestrator.string_of_buf "") /\
  evs = app (map (fun d => Orchestrator.EvRead d false) reads) [Orchestrator.EvRead "" true].
Proof.
  intros Hall.
  destruct (Orchestrator.read_loop reads ("", 0%Z)) as [[o n] evs] eqn:E.
  destruct (read_loop_out _ _ _ _ _ _ Hall E) as [[pre [Ho Hlen]] Hevs].
  rewrite str_app_nil_l in Ho. subst o.
  split; [done | split; [by exists pre | done]].
Qed.

Lemma read_loop_accumulates_witness :
  Forall (fun d => (String.length d <= 1024)%nat) ["Open 10.0.0.1:80"; "done"] /\
  let '(out_tmp, _, evs) := Orchestrator.read_loop ["Open 10.0.0.1:80"; "done"] ("", 0%Z) in
  String.length out_tmp = (1024 * (length ["Open 10.0.0.1:80"; "done"] + 1))%nat /\
  (exists pre, out_tmp = pre ++ Orchestrator.string_of_buf "") /\
  evs = app (map (fun d => Orchestrator.EvRead d false) ["Open 10.0.0.1:80"; "done"])
          [Orchestrator.EvRead "" true].
Proof.
  assert (H : Forall (fun d => (String.length d <= 1024)%nat) ["Open 10.0.0.1:80"; "done"])
    by (repeat constructor; simpl; lia).
  split; [exact H | exact (read_loop_accumulates _ H)].
Defined.

(** ** Splitting *)

Lemma prefix_app_nosep (t : string) :
  forall sep u, sep <> "" -> (forall c, In c (chars t) -> ~ In c (chars sep)) ->
  String.prefix sep (u ++ t) = String.prefix sep u.
Proof.
  intros sep u. revert sep. induction u as [|b u IH]; intros [|a sep] Hne Ht; try done.
  - destruct t as [|b t]; [done |]. simpl.
    destruct (ascii_dec a b) as [->|]; [| done].
    exfalso. apply (Ht b); simpl; auto.
  - rewrite str_app_cons. simpl. destruct (ascii_dec a b); [| done].
    destruct sep as [|a' sep]; [by destruct (u ++ t), u |].
    apply IH; [done |]. intros c Hc Hs. apply (Ht c Hc). simpl. auto.
Qed.

Lemma Contains_nosep (t sep : string) :
  sep <> "" -> (forall c, In c (chars t) -> ~ In c (chars sep)) -> Contains t sep = false.
Proof.
  intros Hne Ht. induction t as [|b t IH].
  - destruct sep; [done | reflexivity].
  - change (Contains (String b t) sep) with
      (if String.prefix sep (String b t) then true else Contains t sep).
    pose proof (prefix_app_nosep (String b t) sep "" Hne Ht) as Hp.
    rewrite str_app_nil_l in Hp. rewrite Hp. destruct sep; [done |]. simpl String.prefix.
    apply IH. intros c Hc. apply Ht. simpl. auto.
Qed.

Lemma split_fuel_nonempty (f : nat) (s sep : string) : split_fuel f s sep <> [].
Proof.
  revert s. induction f as [|f IH]; intros s; simpl; [done |].
  destruct (String.prefix sep s); [done |].
  destruct s as [|c s]; [done |]. destruct (split_fuel f s sep); done.
Qed.

Lemma split_fuel_nosep (f : nat) (s sep : string) :
  Contains s sep = false -> split_fuel f s sep = [s].
Proof.
  revert s. induction f as [|f IH]; intros s Hc; [done |].
  destruct s as [|c s].
  - destruct sep; [discriminate | done].
  - change (Contains (String c s) sep) with
      (if String.prefix sep (String c s) then true else Contains s sep) in Hc.
    cbn [split_fuel]. destruct (String.prefix sep (String c s)); [discriminate |].
    by rewrite IH.
Qed.

Lemma prefix_length (sep u : string) :
  String.prefix sep u = true -> (String.length sep <= String.length u)%nat.
Proof.
  revert u. induction sep as [|a sep IH]; intros [|b u] H; simpl in *; try lia; try discriminate.
  destruct (ascii_dec a b); [apply IH in H; lia | discriminate].
Qed.

Lemma prefix_split (sep u : string) :
  String.prefix sep u = true -> u = sep ++ drop_bytes (String.length sep) u.
Proof.
  revert u. induction sep as [|a sep IH]; intros [|b u] H; simpl in *; try done.
  destruct (ascii_dec a b) as [->|]; [| discriminate].
  rewrite str_app_cons. f_equal. by apply IH.
Qed.

Lemma drop_bytes_app (k : nat) (u t : string) :
  (k <= String.length u)%nat -> drop_bytes k (u ++ t) = drop_bytes k u ++ t.
Proof.
  revert u. induction k as [|k IH]; intros u H; [done |].
  destruct u as [|b u]; [simpl in H; lia |].
  rewrite str_app_cons. cbn [drop_bytes]. apply IH. simpl in H. lia.
Qed.

Lemma drop_bytes_length (k : nat) (u : string) :
  String.length (drop_bytes k u) = (String.length u - k)%nat.
Proof.
  revert u. induction k as [|k IH]; intros [|b u]; simpl; try done; try lia.
Qed.

Lemma split_fuel_enough (sep : string) (Hsep : sep <> "") :
  forall f1 f2 u, (String.length u < f1)%nat -> (String.length u < f2)%nat ->
  split_fuel f1 u sep = split_fuel f2 u sep.
Proof.
  induction f1 as [|f1 IH]; intros f2 u H1 H2; [lia |].
  destruct f2 as [|f2]; [lia |]. cbn [split_fuel].
  destruct (String.prefix sep u) eqn:Hp.
  - assert (1 <= String.length sep)%nat by (destruct sep; [done | simpl; lia]).
    pose proof (prefix_length _ _ Hp). f_equal. apply IH; rewrite drop_bytes_length; lia.
  - destruct u as [|c u]; [done |]. simpl in H1, H2.
    rewrite (IH f2 u); [done | lia | lia].
Qed.

Lemma split_fuel_app_nosep (sep t : string) :
  sep <> "" -> (forall c, In c (chars t) -> ~ In c (chars sep)) ->
  forall f u, (String.length u < f)%nat ->
  exists init lastp, split_fuel f u sep = app init [lastp] /\
    split_fuel f (u ++ t) sep = app init [lastp ++ t].
Proof.
  intros Hsep Ht. induction f as [|f IH]; intros u Hu; [lia |].
  cbn [split_fuel]. rewrite (prefix_app_nosep t sep u Hsep Ht).
  destruct (String.prefix sep u) eqn:Hp.
  - pose proof (prefix_length _ _ Hp) as Hl.
    rewrite (drop_bytes_app _ _ _ Hl).
    destruct (IH (drop_bytes (String.length sep) u)) as [init [lastp [E1 E2]]].
    { assert (1 <= String.length sep)%nat by (destruct sep; [done | simpl; lia]).
      rewrite drop_bytes_length. lia. }
    exists ("" :: init), lastp. by rewrite E1, E2.
  - destruct u as [|c u].
    + exists [], "". split; [done |]. rewrite str_app_nil_l.
      destruct t as [|c t]; [done |].
      assert (Contains (String c t) sep = false) as Hc by (by apply Contains_nosep).
      change (Contains (String c t) sep) with
        (if String.prefix sep (String c t) then true else Contains t sep) in Hc.
      destruct (String.prefix sep (String c t)); [discriminate |].
      by rewrite split_fuel_nosep.
    + simpl in Hu. destruct (IH u) as [init [lastp [E1 E2]]]; [lia |].
      rewrite str_app_cons, E1, E2.
      destruct init as [|p init]; simpl.
      * exists [], (String c lastp). by rewrite str_app_cons.
      * by exists (String c p :: init), lastp.
Qed.

(** ** Payload extraction *)

Lemma extract_loop_app (l1 l2 : list string) (out : string) :
  Orchestrator.extract_loop (app l1 l2) out =
    Orchestrator.extract_loop l2 (Orchestrator.extract_loop l1 out).
Proof. revert out. induction l1 as [|i l1 IH]; intros out; [done | apply IH]. Qed.

Lemma extract_loop_neutral (l : list string) (out : string) :
  Forall (fun i => Contains i "<?xml " = false /\
                   Contains i "Looks like I didn't find any open ports" = false) l ->
  Orchestrator.extract_loop l out = out.
Proof.
  revert out. induction l as [|i l IH]; intros out H; [done |].
  inversion H as [|? ? [H1 H2] Hl]; subst. simpl. rewrite H1, H2. by apply IH.
Qed.

(** X6: the payload is decided by the last segment that holds a marker:
    later segments holding neither the XML declaration nor the no-open-ports
    notice change nothing, and within one segment the XML declaration
    (minus the segment's first byte) takes precedence over the notice. *)
Theorem extract_loop_last_marked_segment (pre rest : list string) (info out : string) :
  Forall (fun i => Contains i "<?xml " = false /\
                   Contains i "Looks like I didn't find any open ports" = false) rest ->
  Orchestrator.extract_loop (app pre (info :: rest)) out =
    if Contains info "<?xml " then drop_bytes 1 info
    else if Contains info "Looks like I didn't find any open ports" then Payload.Structure
    else Orchestrator.extract_loop pre out.
Proof.
  intros Hrest. rewrite extract_loop_app. simpl.
  rewrite extract_loop_neutral by done.
  by destruct (Contains info "<?xml "),
    (Contains info "Looks like I didn't find any open ports").
Qed.

Lemma extract_loop_last_marked_segment_witness :
  Forall (fun i => Contains i "<?xml " = false /\
                   Contains i "Looks like I didn't find any open ports" = false) ["done"] /\
  Orchestrator.extract_loop (app ["[~] Open 1"] ("x<?xml version" :: ["done"])) "" =
    if Contains "x<?xml version" "<?xml " then drop_bytes 1 "x<?xml version"
    else if Contains "x<?xml version" "Looks like I didn't find any open ports" then Payload.Structure
    else Orchestrator.extract_loop ["[~] Open 1"] "".
Proof.
  assert (H : Forall (fun i => Contains i "<?xml " = false /\
                   Contains i "Looks like I didn't find any open ports" = false) ["done"])
    by (repeat constructor).
  split; [exact H | exact (extract_loop_last_marked_segment _ _ _ _ H)].
Defined.

Lemma prefix_app_l (a s t : string) :
  String.prefix a s = true -> String.prefix a (s ++ t) = true.
Proof.
  revert s. induction a as [|x a IH]; intros s H; [by destruct (s ++ t) |].
  destruct s as [|y s]; [discriminate H |].
  rewrite str_app_cons. simpl in *. destruct (ascii_dec x y); [by apply IH | done].
Qed.

Lemma Contains_app_l (s t sub : string) : Contains s sub = true -> Contains (s ++ t) sub = true.
Proof.
  induction s as [|c s IH]; intros H.
  - destruct sub; [by destruct t | discriminate].
  - change (Contains (String c s) sub) with
      (if String.prefix sub (String c s) then true else Contains s sub) in H.
    rewrite str_app_cons.
    change (Contains (String c (s ++ t)) sub) with
      (if String.prefix sub (String c (s ++ t)) then true else Contains (s ++ t) sub).
    destruct (String.prefix sub (String c s)) eqn:Hp.
    + rewrite <- str_app_cons. by rewrite (prefix_app_l _ _ _ Hp).
    + rewrite (IH H). by destruct (String.prefix sub (String c (s ++ t))).
Qed.

Lemma chars_app (a b : string) : chars (a ++ b) = app (chars a) (chars b).
Proof. induction a as [|x a IH]; [done | rewrite str_app_cons; simpl; by rewrite IH]. Qed.

Lemma padding_chars (c : ascii) :
  In c (chars (Orchestrator.string_of_buf "")) -> c = nul.
Proof.
  unfold Orchestrator.string_of_buf. rewrite str_app_nil_l.
  generalize (Orchestrator.buf_size - String.length "")%nat as k.
  induction k as [|k IH]; simpl repeat; [done |].
  rewrite concat_empty_cons, chars_app. simpl. intros [<-|H]; [done | by apply IH].
Qed.

(** X7: when the text after the last [[~]] marker holds an XML
    declaration, the payload handed to the parser is that text minus its
    first byte, followed by the 1024 zero bytes of the final, empty read
    buffer (the accumulated output always ends with them, see X5). *)
Theorem extract_out_keeps_padding (pre : string) :
  Contains (List.last (Split pre "[~]") "") "<?xml " = true ->
  Orchestrator.extract_out (pre ++ Orchestrator.string_of_buf "") =
    drop_bytes 1 (List.last (Split pre "[~]") "") ++ Orchestrator.string_of_buf "".
Proof.
  intros Hx. unfold Orchestrator.extract_out, Split in *.
  assert (Hsep : "[~]" <> "") by done.
  assert (Ht : forall c, In c (chars (Orchestrator.string_of_buf "")) -> ~ In c (chars "[~]")).
  { intros c Hc. apply padding_chars in Hc. subst c. vm_compute. intros [H|[H|[H|[]]]]; discriminate. }
  destruct (split_fuel_app_nosep _ _ Hsep Ht
              (S (String.length (pre ++ Orchestrator.string_of_buf ""))) pre)
    as [init [lastp [E1 E2]]]; [rewrite str_length_app; lia |].
  rewrite E2.
  rewrite (split_fuel_enough _ Hsep (S (String.length pre))
             (S (String.length (pre ++ Orchestrator.string_of_buf ""))))
    in Hx |- * by (try rewrite str_length_app; lia).
  rewrite E1, last_last in Hx. rewrite E1, last_last.
  rewrite extract_loop_app. simpl.
  rewrite (Contains_app_l _ _ _ Hx).
  destruct lastp as [|c lastp]; [discriminate |].
  by rewrite str_app_cons.
Qed.

Lemma extract_out_keeps_padding_witness :
  Contains (List.last (Split ("Open 10.0.0.1:80[~]" ++ nl ++ "x<?xml version") "[~]") "") "<?xml " = true /\
  Orchestrator.extract_out (("Open 10.0.0.1:80[~]" ++ nl ++ "x<?xml version") ++ Orchestrator.string_of_buf "") =
    drop_bytes 1 (List.last (Split ("Open 10.0.0.1:80[~]" ++ nl ++ "x<?xml version") "[~]") "") ++
      Orchestrator.string_of_buf "".
Proof.
  assert (H : Contains (List.last (Split ("Open 10.0.0.1:80[~]" ++ nl ++ "x<?xml version") "[~]") "")
                "<?xml " = true) by (vm_compute; reflexivity).
  split; [exact H | exact (extract_out_keeps_padding _ H)].
Defined.

(** ** Standard error lines *)

Lemma Join_cons (x : string) (l : list string) (sep : string) :
  l <> [] -> Options.Join (x :: l) sep = x ++ sep ++ Options.Join l sep.
Proof. by destruct l. Qed.

Lemma Join_split_fuel (sep : string) (Hsep : sep <> "") :
  forall f s, (String.length s < f)%nat -> Options.Join (split_fuel f s sep) sep = s.
Proof.
  induction f as [|f IH]; intros s Hs; [lia |]. cbn [split_fuel].
  destruct (String.prefix sep s) eqn:Hp.
  - pose proof (prefix_length _ _ Hp).
    assert (1 <= String.length sep)%nat by (destruct sep; [done | simpl; lia]).
    rewrite Join_cons by apply split_fuel_nonempty.
    rewrite IH by (rewrite drop_bytes_length; lia).
    rewrite str_app_nil_l. symmetry. by apply prefix_split.
  - destruct s as [|c s]; [done |]. simpl in Hs.
    pose proof (IH s ltac:(lia)) as E.
    destruct (split_fuel f s sep) as [|p ps] eqn:Es; [by apply split_fuel_nonempty in Es |].
    destruct ps as [|q ps]; [simpl in *; by subst |].
    rewrite Join_cons in E |- * by done. rewrite str_app_cons. by rewrite E.
Qed.

Lemma split_fuel_pieces (a : ascii) :
  forall f s, (String.length s < f)%nat ->
  Forall (fun p => ~ In a (chars p)) (split_fuel f s (String a "")).
Proof.
  induction f as [|f IH]; intros s Hs; [lia |]. cbn [split_fuel].
  destruct (String.prefix (String a "") s) eqn:Hp.
  - constructor; [intros [] |]. apply IH.
    pose proof (prefix_length _ _ Hp). rewrite drop_bytes_length. simpl in *. lia.
  - destruct s as [|c s]; [constructor; [intros [] | constructor] |]. simpl in Hs.
    assert (a <> c) as Hac.
    { intros ->. simpl in Hp. destruct (ascii_dec c c); [| done].
      destruct s; discriminate. }
    pose proof (IH s ltac:(lia)) as Hf.
    destruct (split_fuel f s (String a "")) as [|p ps]; [constructor; [| done]; simpl; intuition |].
    inversion Hf as [|? ? Hp1 Hps]; subst. constructor; [| done].
    simpl. intros [H|H]; [congruence | done].
Qed.

(** X8: the warnings taken from standard error are empty exactly when
    standard error is; otherwise joining them with newlines gives back
    standard error with its leading and trailing newlines trimmed, and no
    warning holds a newline. *)
Theorem stderr_warnings_lines (stderr : string) :
  (Orchestrator.stderr_warnings stderr = [] <-> stderr = "") /\
  (stderr <> "" ->
     Options.Join (Orchestrator.stderr_warnings stderr) nl = TrimNL stderr /\
     Forall (fun w => Contains w nl = false) (Orchestrator.stderr_warnings stderr)).
Proof.
  unfold Orchestrator.stderr_warnings, Split.
  assert (Hnl : nl <> "") by done.
  split.
  - destruct stderr as [|c s]; [done |].
    assert (E : Nat.ltb 0 (String.length (String c s)) = true) by reflexivity.
    rewrite E. split; [intros H; by apply split_fuel_nonempty in H | done].
  - intros Hne. replace (Nat.ltb 0 (String.length stderr)) with true
      by (destruct stderr; [done | reflexivity]).
    split; [apply Join_split_fuel; [done | lia] |].
    eapply Forall_impl; [apply (split_fuel_pieces (Ascii.ascii_of_nat 10)); lia |].
    intros w Hw. apply Contains_nosep; [done |].
    intros c Hc [<-|[]]. by apply Hw.
Qed.

(** X9: a standard error made only of newlines yields a single empty
    warning, not an empty list. *)
Theorem stderr_only_newlines (stderr : string) :
  stderr <> "" -> trim_left_nl stderr = "" ->
  Orchestrator.stderr_warnings stderr = [""].
Proof.
  intros Hne Ht. unfold Orchestrator.stderr_warnings, TrimNL. rewrite Ht.
  destruct stderr; [done | reflexivity].
Qed.

Lemma stderr_only_newlines_witness :
  nl ++ nl <> "" /\ trim_left_nl (nl ++ nl) = "" /\
  Orchestrator.stderr_warnings (nl ++ nl) = [""].
Proof.
  assert (H1 : nl ++ nl <> "") by discriminate.
  assert (H2 : trim_left_nl (nl ++ nl) = "") by reflexivity.
  split; [exact H1 | split; [exact H2 | exact (stderr_only_newlines _ H1 H2)]].
Defined.

Lemma stderr_warnings_lines_witness :
  (Orchestrator.stderr_warnings ("a" ++ nl ++ "b" ++ nl) = [] <-> "a" ++ nl ++ "b" ++ nl = "") /\
  ("a" ++ nl ++ "b" ++ nl <> "" ->
     Options.Join (Orchestrator.stderr_warnings ("a" ++ nl ++ "b" ++ nl)) nl =
       TrimNL ("a" ++ nl ++ "b" ++ nl) /\
     Forall (fun w => Contains w nl = false)
       (Orchestrator.stderr_warnings ("a" ++ nl ++ "b" ++ nl))).
Proof. exact (stderr_warnings_lines ("a" ++ nl ++ "b" ++ nl)). Defined.

(** ** Filters applied by [Run] *)

Lemma alloc_run_read (h : heap) (r : Model.Run) :
  read_run (fst (alloc_run h r)) (snd (alloc_run h r)) = Some r.
Proof.
  destruct r as [hs st]. unfold alloc_run, alloc_slice. simpl.
  destruct hs as [|x hs]; unfold read_run; simpl; rewrite lookup_insert_eq; simpl; [done |].
  by rewrite lookup_insert_eq.
Qed.

Lemma read_run_cell (h : heap) (p : loc) (r : Model.Run) :
  read_run h p = Some r ->
  exists c, runs h !! p = Some c /\ slice_hosts h (cell_Hosts c) = Hosts r /\
            cell_Stats c = Stats_ r.
Proof.
  unfold read_run. destruct (runs h !! p) as [c|]; [| discriminate].
  intros [= <-]. by exists c.
Qed.

Lemma choosePorts_step (h : heap) (p : loc) (r : Model.Run) (g : Port -> bool) :
  read_run h p = Some r ->
  exists h', Filter.choosePorts h p g = Some (h', p) /\
    read_run h' p = Some {| Hosts := map (filtered_ports g) (Hosts r); Stats_ := Stats_ r |}.
Proof.
  intros Hr. destruct (read_run_cell _ _ _ Hr) as [c [Hc [Hh Hs]]].
  assert (exists h', Filter.choosePorts h p g = Some (h', p)) as [h' E]
    by (unfold Filter.choosePorts; rewrite Hc; destruct (cell_Hosts c); eauto).
  exists h'. split; [done |].
  pose proof (choosePorts_read h p c g Hc) as Ha. rewrite E in Ha. simpl in Ha.
  by rewrite Ha, Hh, Hs.
Qed.

Lemma chooseHosts_step (h : heap) (p : loc) (r : Model.Run) (f : Host -> bool) :
  read_run h p = Some r ->
  exists h', Filter.chooseHosts h p f = Some (h', p) /\
    read_run h' p = Some {| Hosts := List.filter f (Hosts r); Stats_ := Stats_ r |}.
Proof.
  intros Hr. destruct (read_run_cell _ _ _ Hr) as [c [Hc [Hh Hs]]].
  assert (exists h', Filter.chooseHosts h p f = Some (h', p)) as [h' E]
    by (unfold Filter.chooseHosts; rewrite Hc;
        destruct (alloc_slice h (Filter.append_if f (slice_hosts h (cell_Hosts c)) [])); eauto).
  exists h'. split; [done |].
  pose proof (chooseHosts_read h p c f Hc) as Ha. rewrite E in Ha. simpl in Ha.
  by rewrite Ha, Hh, Hs.
Qed.

Lemma apply_filters_spec (s : Orchestrator.Scanner) (r : Model.Run) :
  Orchestrator.apply_filters s r =
    Some {| Hosts := (match Orchestrator.hostFilter s with
                      | Some f => List.filter f
                      | None => fun hs => hs
                      end)
                       (match Orchestrator.portFilter s with
                        | Some g => map (filtered_ports g)
                        | None => fun hs => hs
                        end (Hosts r));
            Stats_ := Stats_ r |}.
Proof.
  unfold Orchestrator.apply_filters.
  pose proof (alloc_run_read empty_heap r) as H0.
  destruct (alloc_run empty_heap r) as [h p]. simpl in H0.
  assert (exists h1, match Orchestrator.portFilter s with
                     | Some f => Filter.choosePorts h p f
                     | None => Some (h, p)
                     end = Some (h1, p) /\
          read_run h1 p = Some {| Hosts := match Orchestrator.portFilter s with
                                           | Some g => map (filtered_ports g)
                                           | None => fun hs => hs
                                           end (Hosts r); Stats_ := Stats_ r |})
    as [h1 [E1 H1]].
  { destruct (Orchestrator.portFilter s) as [g|].
    - apply (choosePorts_step _ _ _ g H0).
    - exists h. split; [done |]. rewrite H0. by destruct r. }
  rewrite E1. destruct (Orchestrator.hostFilter s) as [f|].
  - destruct (chooseHosts_step _ _ _ f H1) as [h2 [E2 H2]]. by rewrite E2, H2.
  - rewrite H1. done.
Qed.

(** ** [Run] after process exit *)

Lemma analyzeWarnings_Exists (ws : list string) :
  Exists (fun w => Contains w "Malloc Failed!" = true) ws -> analyzeWarnings ws = Some ErrMallocFailed.
Proof.
  induction 1 as [w ws Hw|w ws _ IH]; simpl; [by rewrite Hw |].
  by destruct (Contains w "Malloc Failed!").
Qed.

Lemma analyzeWarnings_Forall (ws : list string) :
  Forall (fun w => Contains w "Malloc Failed!" = false) ws -> analyzeWarnings ws = None.
Proof. induction 1 as [|w ws Hw _ IH]; simpl; [done | by rewrite Hw]. Qed.

(** X10: once the counter is within the limit and process exit wins the
    race, a warning holding [Malloc Failed!] makes [Run] return no report,
    the warnings of standard error and [ErrMallocFailed], whatever the
    parser and the output; the process is waited for, not killed. *)
Theorem Run_malloc_failure (Parse : string -> Model.Run + string)
    (s : Orchestrator.Scanner) (limit : Z) (env : Orchestrator.Env)
    (out_tmp : string) (n : Z) (evs : list Orchestrator.Event) :
  Orchestrator.start_error env = None ->
  Orchestrator.read_loop (Orchestrator.stdout_reads env) ("", 0%Z) = (out_tmp, n, evs) ->
  (n <= limit)%Z -> Orchestrator.ctx_done_first env = false ->
  Exists (fun w => Contains w "Malloc Failed!" = true)
    (Orchestrator.stderr_warnings (Orchestrator.stderr_output env)) ->
  Orchestrator.Run Parse s limit env =
    Orchestrator.mk None (Orchestrator.stderr_warnings (Orchestrator.stderr_output env))
      (Some ErrMallocFailed)
      (app (Orchestrator.EvStart (Orchestrator.binaryPath s)
              (Orchestrator.run_args (Orchestrator.args s)) :: evs) [Orchestrator.EvWait]).
Proof.
  intros Hs Hl Hn Hc Hw. unfold Orchestrator.Run. rewrite Hs, Hl.
  replace (Z.ltb limit n) with false by (symmetry; apply Z.ltb_ge; lia).
  rewrite Hc, (analyzeWarnings_Exists _ Hw). reflexivity.
Qed.

Lemma Run_malloc_failure_witness :
  let rl := Orchestrator.read_loop (Orchestrator.stdout_reads env_malloc) ("", 0%Z) in
  Orchestrator.Run failing_parse scanner0 30 env_malloc =
    Orchestrator.mk None (Orchestrator.stderr_warnings (Orchestrator.stderr_output env_malloc))
      (Some ErrMallocFailed)
      (app (Orchestrator.EvStart (Orchestrator.binaryPath scanner0)
              (Orchestrator.run_args (Orchestrator.args scanner0)) :: snd rl) [Orchestrator.EvWait]).
Proof.
  intros rl.
  apply (Run_malloc_failure failing_parse scanner0 30 env_malloc (fst (fst rl)) (snd (fst rl)) (snd rl)).
  - reflexivity.
  - vm_compute. reflexivity.
  - apply Z.leb_le. vm_compute. reflexivity.
  - reflexivity.
  - vm_compute. apply Exists_cons_tl, Exists_cons_hd. reflexivity.
Defined.

Lemma sprintf_noargs_plain (msg : string) :
  Contains msg "%" = false -> sprintf_noargs false msg = msg.
Proof.
  induction msg as [|c msg IH]; intros H; [done |].
  change (Contains (String c msg) "%") with
    (if (if ascii_dec "%"%char c then String.prefix "" msg else false) then true
     else Contains msg "%") in H.
  cbn [sprintf_noargs].
  destruct (ascii_dec "%"%char c) as [<-|Hc]; [destruct msg; discriminate H |].
  replace (Ascii.eqb c "%"%char) with false
    by (symmetry; apply Ascii.eqb_neq; congruence).
  by rewrite (IH H).
Qed.

(** X11: when the parsed report carries a scan-level error message,
    [Run] returns that report unfiltered, even when filters are set, with
    the warnings of standard error; the error is [ErrResolveName] when the
    message names a failed name resolution, and otherwise the message
    itself when it holds no percent sign. *)
Theorem Run_scan_level_error (Parse : string -> Model.Run + string)
    (s : Orchestrator.Scanner) (limit : Z) (env : Orchestrator.Env)
    (out_tmp : string) (n : Z) (evs : list Orchestrator.Event) (r : Model.Run) :
  Orchestrator.start_error env = None ->
  Orchestrator.read_loop (Orchestrator.stdout_reads env) ("", 0%Z) = (out_tmp, n, evs) ->
  (n <= limit)%Z -> Orchestrator.ctx_done_first env = false ->
  Forall (fun w => Contains w "Malloc Failed!" = false)
    (Orchestrator.stderr_warnings (Orchestrator.stderr_output env)) ->
  Parse (Orchestrator.extract_out out_tmp) = inl r ->
  ErrorMsg (Finished_ (Stats_ r)) <> "" ->
  let o := Orchestrator.Run Parse s limit env in
  Orchestrator.result o = Some r /\
  Orchestrator.warnings o = Orchestrator.stderr_warnings (Orchestrator.stderr_output env) /\
  (Contains (ErrorMsg (Finished_ (Stats_ r))) "Error resolving name" = true ->
     Orchestrator.err o = Some ErrResolveName) /\
  (Contains (ErrorMsg (Finished_ (Stats_ r))) "Error resolving name" = false ->
   Contains (ErrorMsg (Finished_ (Stats_ r))) "%" = false ->
     Orchestrator.err o = Some (ErrorString (ErrorMsg (Finished_ (Stats_ r))))).
Proof.
  intros Hs Hl Hn Hc Hw Hp Hm o. subst o. unfold Orchestrator.Run. rewrite Hs, Hl.
  replace (Z.ltb limit n) with false by (symmetry; apply Z.ltb_ge; lia).
  rewrite Hc, (analyzeWarnings_Forall _ Hw), Hp.
  replace (Nat.ltb 0 (String.length (ErrorMsg (Finished_ (Stats_ r))))) with true
    by (destruct (ErrorMsg (Finished_ (Stats_ r))); [done | reflexivity]).
  destruct (Contains (ErrorMsg (Finished_ (Stats_ r))) "Error resolving name").
  - repeat split; done.
  - repeat split; [done |]. intros _ Hpct. unfold Errorf. by rewrite sprintf_noargs_plain.
Qed.

Lemma Run_scan_level_error_witness :
  let rl := Orchestrator.read_loop (Orchestrator.stdout_reads (env_of [] "")) ("", 0%Z) in
  let o := Orchestrator.Run parse_pct scanner0 30 (env_of [] "") in
  Orchestrator.result o = Some report_pct /\
  Orchestrator.warnings o = Orchestrator.stderr_warnings (Orchestrator.stderr_output (env_of [] "")) /\
  (Contains (ErrorMsg (Finished_ (Stats_ report_pct))) "Error resolving name" = true ->
     Orchestrator.err o = Some ErrResolveName) /\
  (Contains (ErrorMsg (Finished_ (Stats_ report_pct))) "Error resolving name" = false ->
   Contains (ErrorMsg (Finished_ (Stats_ report_pct))) "%" = false ->
     Orchestrator.err o = Some (ErrorString (ErrorMsg (Finished_ (Stats_ report_pct))))).
Proof.
  intros rl.
  apply (Run_scan_level_error parse_pct scanner0 30 (env_of [] "")
           (fst (fst rl)) (snd (fst rl)) (snd rl) report_pct).
  - reflexivity.
  - vm_compute. reflexivity.
  - apply Z.leb_le. vm_compute. reflexivity.
  - reflexivity.
  - vm_compute. constructor.
  - reflexivity.
  - vm_compute. discriminate.
Defined.

(** X12: on the success path [Run] returns the parsed report with each
    host's ports filtered first and the hosts filtered afterwards (so the
    host filter sees the filtered ports), the warnings of standard error
    and no error, after waiting for the process. *)
Theorem Run_success (Parse : string -> Model.Run + string)
    (s : Orchestrator.Scanner) (limit : Z) (env : Orchestrator.Env)
    (out_tmp : string) (n : Z) (evs : list Orchestrator.Event) (r : Model.Run) :
  Orchestrator.start_error env = None ->
  Orchestrator.read_loop (Orchestrator.stdout_reads env) ("", 0%Z) = (out_tmp, n, evs) ->
  (n <= limit)%Z -> Orchestrator.ctx_done_first env = false ->
  Forall (fun w => Contains w "Malloc Failed!" = false)
    (Orchestrator.stderr_warnings (Orchestrator.stderr_output env)) ->
  Parse (Orchestrator.extract_out out_tmp) = inl r ->
  ErrorMsg (Finished_ (Stats_ r)) = "" ->
  Orchestrator.Run Parse s limit env =
    Orchestrator.mk
      (Some {| Hosts := (match Orchestrator.hostFilter s with
                         | Some f => List.filter f
                         | None => fun hs => hs
                         end)
                          (match Orchestrator.portFilter s with
                           | Some g => map (filtered_ports g)
                           | None => fun hs => hs
                           end (Hosts r));
               Stats_ := Stats_ r |})
      (Orchestrator.stderr_warnings (Orchestrator.stderr_output env)) None
      (app (Orchestrator.EvStart (Orchestrator.binaryPath s)
              (Orchestrator.run_args (Orchestrator.args s)) :: evs) [Orchestrator.EvWait]).
Proof.
  intros Hs Hl Hn Hc Hw Hp Hm. unfold Orchestrator.Run. rewrite Hs, Hl.
  replace (Z.ltb limit n) with false by (symmetry; apply Z.ltb_ge; lia).
  rewrite Hc, (analyzeWarnings_Forall _ Hw), Hp, Hm. simpl.
  by rewrite apply_filters_spec.
Qed.

Lemma Run_success_witness :
  let rl := Orchestrator.read_loop (Orchestrator.stdout_reads (env_of [] "")) ("", 0%Z) in
  Orchestrator.Run parse_ok scanner_open 30 (env_of [] "") =
    Orchestrator.mk
      (Some {| Hosts := (match Orchestrator.hostFilter scanner_open with
                         | Some f => List.filter f
                         | None => fun hs => hs
                         end)
                          (match Orchestrator.portFilter scanner_open with
                           | Some g => map (filtered_ports g)
                           | None => fun hs => hs
                           end (Hosts report_ok));
               Stats_ := Stats_ report_ok |})
      (Orchestrator.stderr_warnings (Orchestrator.stderr_output (env_of [] ""))) None
      (app (Orchestrator.EvStart (Orchestrator.binaryPath scanner_open)
              (Orchestrator.run_args (Orchestrator.args scanner_open)) :: snd rl)
           [Orchestrator.EvWait]).
Proof.
  intros rl.
  apply (Run_success parse_ok scanner_open 30 (env_of [] "")
           (fst (fst rl)) (snd (fst rl)) (snd rl) report_ok).
  - reflexivity.
  - vm_compute. reflexivity.
  - apply Z.leb_le. vm_compute. reflexivity.
  - reflexivity.
  - vm_compute. constructor.
  - reflexivity.
  - reflexivity.
Defined.

(** ** Filters applied twice *)

Lemma filter_idem {A} (f : A -> bool) (xs : list A) :
  List.filter f (List.filter f xs) = List.filter f xs.
Proof.
  induction xs as [|x xs IH]; simpl; [done |].
  destruct (f x) eqn:E; simpl; [rewrite E |]; by rewrite IH.
Qed.

Lemma filtered_ports_idem (g : Port -> bool) (hst : Host) :
  filtered_ports g (filtered_ports g hst) = filtered_ports g hst.
Proof. unfold filtered_ports, set_Ports. simpl. by rewrite filter_idem. Qed.

(** X13: applying the host filter (the port filter) a second time to the
    report it returned changes nothing. *)
Theorem filters_idempotent (h : heap) (p : loc) (c : RunCell)
    (f : Host -> bool) (g : Port -> bool) :
  runs h !! p = Some c ->
  after (match Filter.chooseHosts h p f with
         | Some (h', p') => Filter.chooseHosts h' p' f
         | None => None
         end) = after (Filter.chooseHosts h p f) /\
  after (match Filter.choosePorts h p g with
         | Some (h', p') => Filter.choosePorts h' p' g
         | None => None
         end) = after (Filter.choosePorts h p g).
Proof.
  intros Hc.
  assert (Hr : read_run h p =
    Some {| Hosts := slice_hosts h (cell_Hosts c); Stats_ := cell_Stats c |})
    by (unfold read_run; by rewrite Hc).
  split.
  - destruct (chooseHosts_step _ _ _ f Hr) as [h1 [E1 H1]]. rewrite E1. simpl.
    destruct (chooseHosts_step _ _ _ f H1) as [h2 [E2 H2]]. rewrite E2. simpl.
    rewrite H1, H2. simpl. by rewrite filter_idem.
  - destruct (choosePorts_step _ _ _ g Hr) as [h1 [E1 H1]]. rewrite E1. simpl.
    destruct (choosePorts_step _ _ _ g H1) as [h2 [E2 H2]]. rewrite E2. simpl.
    rewrite H1, H2. simpl. rewrite map_map. f_equal. f_equal.
    apply map_ext. intros. apply filtered_ports_idem.
Qed.

Lemma filters_idempotent_witness :
  after (match Filter.chooseHosts heap1 1%positive has_ports with
         | Some (h', p') => Filter.chooseHosts h' p' has_ports
         | None => None
         end) = after (Filter.chooseHosts heap1 1%positive has_ports) /\
  after (match Filter.choosePorts heap1 1%positive is_open with
         | Some (h', p') => Filter.choosePorts h' p' is_open
         | None => None
         end) = after (Filter.choosePorts heap1 1%positive is_open).
Proof.
  apply (filters_idempotent heap1 1%positive
           {| cell_Hosts := Some 2%positive; cell_Stats := stats0 |}).
  reflexivity.
Defined.

Lemma digit_value (n : N) (acc : Z) (s : string) :
  (n < 10)%N ->
  digits_value acc (String (ascii_of_N (48 + n)) s) = digits_value (acc * 10 + Z.of_N n)%Z s.
Proof.
  intros Hn. cbn [digits_value].
  rewrite N_ascii_embedding by lia.
  replace ((48 <=? 48 + n)%N && (48 + n <=? 57)%N) with true
    by (symmetry; apply andb_true_intro; split; apply N.leb_le; lia).
  replace (48 + n - 48)%N with n by lia. reflexivity.
Qed.

Lemma dec_digits_value (f : nat) :
  forall (n : N) (acc : string), (n < 10 ^ N.of_nat f)%N ->
  digits_value 0 (Options.dec_digits f n acc) = digits_value (Z.of_N n) acc.
Proof.
  induction f as [|f IH]; intros n acc Hn.
  { simpl in Hn. replace n with 0%N by lia. reflexivity. }
  cbn [Options.dec_digits].
  assert (Hm : (n mod 10 < 10)%N) by (apply N.mod_lt; lia).
  destruct (N.ltb_spec n 10) as [Hlt|Hge].
  - rewrite digit_value by done. rewrite N.mod_small by done. f_equal.
  - rewrite IH.
    + rewrite digit_value by done. f_equal.
      rewrite (N.div_mod n 10) at 3 by lia. lia.
    + rewrite Nat2N.inj_succ, N.pow_succ_r' in Hn.
      apply N.Div0.div_lt_upper_bound; lia.
Qed.

Lemma size_nat_bound (p : positive) : (N.pos p < 10 ^ N.of_nat (Pos.size_nat p))%N.
Proof.
  induction p as [p IH|p IH|]; cbn [Pos.size_nat]; rewrite ?Nat2N.inj_succ, ?N.pow_succ_r';
    try lia.
Qed.

Theorem Sprint_int_decimal (z : Z) : decimal_value (Options.Sprint_int z) = Some z.
Proof.
  destruct z as [|p|p]; [reflexivity | |].
  - unfold Options.Sprint_int.
    pose proof (dec_digits_value (Pos.size_nat p) (N.pos p) "" (size_nat_bound p)) as E.
    destruct (Options.dec_digits (Pos.size_nat p) (N.pos p) "") as [|c s] eqn:Ed.
    + discriminate E.
    + unfold decimal_value.
      destruct (Ascii.eqb c "-"%char) eqn:Ec; [| by rewrite E].
      exfalso. apply Ascii.eqb_eq in Ec. subst c.
      simpl in E. discriminate E.
  - unfold Options.Sprint_int.
    pose proof (dec_digits_value (Pos.size_nat p) (N.pos p) "" (size_nat_bound p)) as E.
    change ("-" ++ Options.dec_digits (Pos.size_nat p) (N.pos p) "")
      with (String "-" (Options.dec_digits (Pos.size_nat p) (N.pos p) "")).
    unfold decimal_value. simpl Ascii.eqb. cbv iota.
    destruct (Options.dec_digits (Pos.size_nat p) (N.pos p) "") as [|c s] eqn:Ed;
      [discriminate E |].
    by rewrite E.
Qed.

(** X14: a sequence of options without [WithPorts] never panics, leaves
    the closure store unchanged and only appends to the arguments. *)
Theorem AddOptions_without_ports_appends (s : Orchestrator.Scanner)
    (opts : list Options.Option) (cl : Options.closures) :
  forallb (fun o => negb (is_ports_option o)) opts = true ->
  exists s' suffix, Options.AddOptions s opts cl = Some (s', cl) /\
    Orchestrator.args s' = app (Orchestrator.args s) suffix.
Proof.
  revert s. induction opts as [|o opts IH]; intros s Hall; simpl in *.
  - exists s, []. by rewrite app_nil_r.
  - apply andb_prop in Hall as [Ho Hall].
    assert (exists s1 suf, Options.apply_option o cl s = Some (s1, cl) /\
              Orchestrator.args s1 = app (Orchestrator.args s) suf) as [s1 [suf [E Ha]]].
    { destruct o; simpl in Ho; try discriminate; simpl; eexists _, _; split; try reflexivity;
        simpl; try (by rewrite app_nil_r); try reflexivity. by rewrite <- app_assoc. }
    rewrite E. destruct (IH s1 Hall) as [s2 [suf2 [E2 Ha2]]].
    exists s2, (app suf suf2). split; [done |]. by rewrite Ha2, Ha, app_assoc.
Qed.

Lemma AddOptions_without_ports_appends_witness :
  exists s' suffix,
    Options.AddOptions Options.empty_scanner
      [Options.WithTargets ["example.test"]; Options.WithBatchSize 4500; Options.WithUlimit 5000]
      {| Options.captured := ∅; Options.next_cap := 1%positive |} =
      Some (s', {| Options.captured := ∅; Options.next_cap := 1%positive |}) /\
    Orchestrator.args s' = app (Orchestrator.args Options.empty_scanner) suffix.
Proof.
  apply AddOptions_without_ports_appends. reflexivity.
Defined.

(** X15: [WithBatchSize], [WithTimeout] and [WithUlimit] append their
    flag and a decimal numeral whose value is the number given, negative
    numbers included. *)
Theorem numeric_options_decimal (z : Z) (cl : Options.closures) (s : Orchestrator.Scanner) :
  (exists t, Options.apply_option (Options.WithBatchSize z) cl s =
     Some (Options.set_args s (app (Orchestrator.args s) ["-b"; t]), cl) /\ decimal_value t = Some z) /\
  (exists t, Options.apply_option (Options.WithTimeout z) cl s =
     Some (Options.set_args s (app (Orchestrator.args s) ["-t"; t]), cl) /\ decimal_value t = Some z) /\
  (exists t, Options.apply_option (Options.WithUlimit z) cl s =
     Some (Options.set_args s (app (Orchestrator.args s) ["-u"; t]), cl) /\ decimal_value t = Some z).
Proof.
  pose proof (Sprint_int_decimal z).
  split; [| split]; exists (Options.Sprint_int z); split; done.
Qed.

Lemma read_loop_events (reads : list string) (st : string * Z) :
  snd (Orchestrator.read_loop reads st) =
    app (map (fun d => Orchestrator.EvRead d false) reads) [Orchestrator.EvRead "" true].
Proof.
  revert st. induction reads as [|d rest IH]; intros st; cbn [Orchestrator.read_loop].
  - by destruct (Orchestrator.read_step "" st).
  - specialize (IH (Orchestrator.read_step d st)).
    destruct (Orchestrator.read_loop rest (Orchestrator.read_step d st)) as [[o2 n2] evs2].
    simpl in *. by rewrite IH.
Qed.

(** X16: [Run] never returns neither a report nor an error: without an
    error there is a report, and without a report there is an error. *)
Theorem Run_report_or_error (Parse : string -> Model.Run + string)
    (s : Orchestrator.Scanner) (limit : Z) (env : Orchestrator.Env) :
  let o := Orchestrator.Run Parse s limit env in
  (Orchestrator.err o = None -> exists r, Orchestrator.result o = Some r) /\
  (Orchestrator.result o = None -> Orchestrator.err o <> None).
Proof.
  unfold Orchestrator.Run.
  destruct (Orchestrator.start_error env) as [e|]; [done |].
  destruct (Orchestrator.read_loop (Orchestrator.stdout_reads env) ("", 0%Z)) as [[o' n] evs].
  destruct (Z.ltb limit n); [done |].
  destruct (Orchestrator.ctx_done_first env); [done |].
  destruct (analyzeWarnings _) as [e|]; [done |].
  destruct (Parse _) as [r|perr]; [| done].
  destruct (Nat.ltb _ _); [destruct (Contains _ _); split; by eauto |].
  rewrite apply_filters_spec. split; by eauto.
Qed.

Lemma Run_report_or_error_witness :
  let o := Orchestrator.Run failing_parse scanner0 30 (env_of [] "") in
  (Orchestrator.err o = None -> exists r, Orchestrator.result o = Some r) /\
  (Orchestrator.result o = None -> Orchestrator.err o <> None).
Proof. exact (Run_report_or_error failing_parse scanner0 30 (env_of [] "")). Defined.

(** X17: a started process is always read up to end-of-stream, every
    read in order, and then either killed, on the heuristic abort and on
    the timeout only and with no report, or waited for. *)
Theorem Run_process_lifecycle (Parse : string -> Model.Run + string)
    (s : Orchestrator.Scanner) (limit : Z) (env : Orchestrator.Env) :
  Orchestrator.start_error env = None ->
  let o := Orchestrator.Run Parse s limit env in
  exists last,
    Orchestrator.trace o =
      Orchestrator.EvStart (Orchestrator.binaryPath s) (Orchestrator.run_args (Orchestrator.args s)) ::
        app (map (fun d => Orchestrator.EvRead d false) (Orchestrator.stdout_reads env))
            [Orchestrator.EvRead "" true; last] /\
    ((last = Orchestrator.EvKill /\ Orchestrator.result o = None /\
      (Orchestrator.err o = Some ErrScanCDN \/ Orchestrator.err o = Some ErrScanTimeout)) \/
     last = Orchestrator.EvWait).
Proof.
  intros Hs o. subst o. unfold Orchestrator.Run. rewrite Hs.
  pose proof (read_loop_events (Orchestrator.stdout_reads env) ("", 0%Z)) as Ev.
  destruct (Orchestrator.read_loop (Orchestrator.stdout_reads env) ("", 0%Z)) as [[o' n] evs].
  simpl in Ev. subst evs.
  assert (Happ : forall x, app (app (map (fun d => Orchestrator.EvRead d false)
                    (Orchestrator.stdout_reads env)) [Orchestrator.EvRead "" true]) [x] =
                  app (map (fun d => Orchestrator.EvRead d false)
                    (Orchestrator.stdout_reads env)) [Orchestrator.EvRead "" true; x])
    by (intros x; by rewrite <- app_assoc).
  destruct (Z.ltb limit n).
  { exists Orchestrator.EvKill. simpl. rewrite Happ. split; [done | left; auto]. }
  destruct (Orchestrator.ctx_done_first env).
  { exists Orchestrator.EvKill. simpl. rewrite Happ. split; [done | left; auto]. }
  exists Orchestrator.EvWait. split; [| by right].
  destruct (analyzeWarnings _) as [e|]; [simpl; by rewrite Happ |].
  destruct (Parse _) as [r|perr]; [| simpl; by rewrite Happ].
  destruct (Nat.ltb _ _); [destruct (Contains _ _) |]; simpl; by rewrite Happ.
Qed.

Lemma Run_process_lifecycle_witness :
  let o := Orchestrator.Run failing_parse scanner0 30 (env_of ["Open 10.0.0.1:80"] "") in
  exists last,
    Orchestrator.trace o =
      Orchestrator.EvStart (Orchestrator.binaryPath scanner0)
        (Orchestrator.run_args (Orchestrator.args scanner0)) ::
        app (map (fun d => Orchestrator.EvRead d false)
               (Orchestrator.stdout_reads (env_of ["Open 10.0.0.1:80"] "")))
            [Orchestrator.EvRead "" true; last] /\
    ((last = Orchestrator.EvKill /\ Orchestrator.result o = None /\
      (Orchestrator.err o = Some ErrScanCDN \/ Orchestrator.err o = Some ErrScanTimeout)) \/
     last = Orchestrator.EvWait).
Proof.
  apply (Run_process_lifecycle failing_parse scanner0 30 (env_of ["Open 10.0.0.1:80"] "")).
  reflexivity.
Defined.
